(** * book_bot_database: the reconnecting pgx pool session of [database.go]

    The Go program keeps one [DB_Session] shared by several goroutines:
    the supervisor ([handleReconnect], started by [NewDB]), one health
    monitor per successful [connect] (the anonymous goroutine of
    [connect]), and the application goroutines that call [GetConnection]
    and [Close].  They communicate through the two channels of the session
    and through its plain fields.

    The embedding is a sequentially consistent interleaving semantics:
    - the session struct is a record, the channels are [ChanOpen] or
      [ChanClosed] (nothing is ever sent on [done]; a send on the unbuffered
      [notifyConnClose] is a hand-off between a monitor and the supervisor);
    - every statement that touches shared state or calls the pool library is
      one atomic action in a small state monad [M] whose results are a
      value, a Go panic, or "blocked";
    - each goroutine is a program counter; an [event] says which goroutine
      moves (and which ready case a [select] takes), [step] performs it;
    - a [select] is evaluated when its goroutine is scheduled and takes a
      case that can proceed then: a receive from a closed channel always
      can, a receive from [notifyConnClose] also when a monitor is sending,
      and the [time.After] case when the goroutine is scheduled with [done]
      still open (the delay has elapsed);
    - the pgx pool library is outside the repository: its answers come from
      an [Adapter] oracle, indexed by the number of the call.  A library
      call that has not returned yet (Ping, Acquire and NewWithConfig run
      with context.Background(), Pool.Close waits for the connections that
      are out) is a goroutine that has not been scheduled: there is no
      fairness, and nothing below says that a goroutine standing before a
      library call moves on by itself;
    - [session.pool.Close()] is two actions, the load of the field and the
      call on the loaded handle; for Ping and Acquire the load and the call
      are one action.

    The bodies of [connect], [ping], [getConnection] and [Close] are also
    given as plain sequential functions in [M]; the lemmas of section
    "uninterrupted runs" relate them to the goroutine steps. *)

From Stdlib Require Import List Bool Arith Lia ZArith.
From Stdlib Require String.
Import ListNotations.
Import String.StringSyntax.
Open Scope string_scope.
Open Scope nat_scope.

Abbreviation string := String.string.

(** ** Data *)

Definition handle := nat.          (* a *pgxpool.Pool: the number of the open call that made it *)

Record conn := mkConn {            (* a *pgxpool.Conn *)
  conn_pool : handle;
  conn_id : nat
}.

Inductive op := OpOpen | OpPing | OpAcquire.

Inductive error :=
| errAlreadyClosed                 (* "already closed: not connected to the server" *)
| errShutdown                      (* "session is shutting down" *)
| errAdapter (o : op) (call : nat). (* the error value of a failed pool library call *)

Record DB_Params := mkParams {
  Server : string;
  MaxConnectAttempts : Z
}.

Inductive chan := ChanOpen | ChanClosed.

(** The struct [DB_Session].  The logger is the [stdout] of the world below;
    the parsed config is a function of [params.Server] that only the pool
    library reads.  [params] is the pointer NewDB was given, which is not
    nil in a session that exists. *)
Record DB_Session := mkSession {
  params : DB_Params;
  pool : option handle;            (* nil until the first successful open *)
  done : chan;
  notifyConnClose : chan;
  isReady : bool
}.

(** The pool library, as an oracle: the answer of the [k]-th call of each kind. *)
Record Adapter := mkAdapter {
  config_ok : string -> bool;      (* pgxpool.ParseConfig *)
  open_ok : nat -> bool;           (* pgxpool.NewWithConfig *)
  ping_ok : nat -> bool;           (* Pool.Ping *)
  acquire_ok : nat -> bool         (* Pool.Acquire *)
}.

Inductive line :=
| Println (s : string)
| PrintError (e : error).          (* Printf("DB Error: %+v\n", err) *)

(** ** Goroutines *)

Inductive sup_pc :=
| SupLoop                          (* line 62: top of the for loop *)
| SupConnect                       (* line 65 -> 88: about to open a pool *)
| SupPing                          (* line 94: pool stored, initial ping next *)
| SupSpawn                         (* line 99: ping passed, go func next *)
| SupReady                         (* line 112: monitor started, isReady = true next *)
| SupLogs                          (* line 113: the two log lines, return nil *)
| SupBackoff                       (* line 70: select {done, time.After} *)
| SupWait                          (* line 78: select {done, notifyConnClose} *)
| SupExit.                         (* returned *)

Inductive mon_pc :=
| MonTick                          (* line 103: waiting for the ticker *)
| MonSend                          (* line 106: sending on notifyConnClose *)
| MonExit.                         (* line 107: left the loop *)

Record monitor := mkMon {
  mon_at : mon_pc;
  mon_pool : option handle         (* history: session.pool when it was started *)
}.

Inductive get_pc :=
| GetCall                          (* line 129 -> 144 *)
| GetAcquire                       (* line 147 *)
| GetSelect                        (* line 132: select {done, time.After} *)
| GetRet (r : conn + error).

Record getter := mkGet {
  get_at : get_pc;
  get_waits : nat                  (* history: backoff delays this call sat through *)
}.

Inductive close_pc :=
| CloseCall                        (* line 155 *)
| ClosePool                        (* line 159: load session.pool *)
| CloseLoaded (p : option handle)  (* line 159: call Close on the loaded handle *)
| CloseDone                        (* line 160 *)
| CloseNotify                      (* line 161 *)
| CloseClear                       (* line 162 *)
| CloseRet (r : option error).

(** ** The world: the session, the pool library's state, the goroutines *)

Record World := mkWorld {
  session : DB_Session;
  closed_pools : list handle;      (* pools on which Close() was called *)
  n_open : nat;                    (* calls of NewWithConfig so far *)
  n_ping : nat;
  n_acquire : nat;
  sup : sup_pc;
  monitors : list monitor;
  getters : list getter;
  closers : list close_pc;
  stdout : list line;              (* newest first *)
  panicked : bool;
  (* history variables, written but never read by the program *)
  sleeps : nat;                    (* reconnectDelay timers the supervisor waited out *)
  connected : bool;                (* the open and the initial ping of the latest
                                      connect attempt to get an answer both passed *)
  probe_failed : bool              (* a monitor's ping has failed since they passed *)
}.

Definition set_session (x : DB_Session) (w : World) : World :=
  mkWorld x (closed_pools w) (n_open w) (n_ping w) (n_acquire w) (sup w) (monitors w)
    (getters w) (closers w) (stdout w) (panicked w) (sleeps w) (connected w) (probe_failed w).
Definition set_closed_pools (x : list handle) (w : World) : World :=
  mkWorld (session w) x (n_open w) (n_ping w) (n_acquire w) (sup w) (monitors w)
    (getters w) (closers w) (stdout w) (panicked w) (sleeps w) (connected w) (probe_failed w).
Definition set_n_open (x : nat) (w : World) : World :=
  mkWorld (session w) (closed_pools w) x (n_ping w) (n_acquire w) (sup w) (monitors w)
    (getters w) (closers w) (stdout w) (panicked w) (sleeps w) (connected w) (probe_failed w).
Definition set_n_ping (x : nat) (w : World) : World :=
  mkWorld (session w) (closed_pools w) (n_open w) x (n_acquire w) (sup w) (monitors w)
    (getters w) (closers w) (stdout w) (panicked w) (sleeps w) (connected w) (probe_failed w).
Definition set_n_acquire (x : nat) (w : World) : World :=
  mkWorld (session w) (closed_pools w) (n_open w) (n_ping w) x (sup w) (monitors w)
    (getters w) (closers w) (stdout w) (panicked w) (sleeps w) (connected w) (probe_failed w).
Definition set_sup (x : sup_pc) (w : World) : World :=
  mkWorld (session w) (closed_pools w) (n_open w) (n_ping w) (n_acquire w) x (monitors w)
    (getters w) (closers w) (stdout w) (panicked w) (sleeps w) (connected w) (probe_failed w).
Definition set_monitors (x : list monitor) (w : World) : World :=
  mkWorld (session w) (closed_pools w) (n_open w) (n_ping w) (n_acquire w) (sup w) x
    (getters w) (closers w) (stdout w) (panicked w) (sleeps w) (connected w) (probe_failed w).
Definition set_getters (x : list getter) (w : World) : World :=
  mkWorld (session w) (closed_pools w) (n_open w) (n_ping w) (n_acquire w) (sup w) (monitors w)
    x (closers w) (stdout w) (panicked w) (sleeps w) (connected w) (probe_failed w).
Definition set_closers (x : list close_pc) (w : World) : World :=
  mkWorld (session w) (closed_pools w) (n_open w) (n_ping w) (n_acquire w) (sup w) (monitors w)
    (getters w) x (stdout w) (panicked w) (sleeps w) (connected w) (probe_failed w).
Definition set_stdout (x : list line) (w : World) : World :=
  mkWorld (session w) (closed_pools w) (n_open w) (n_ping w) (n_acquire w) (sup w) (monitors w)
    (getters w) (closers w) x (panicked w) (sleeps w) (connected w) (probe_failed w).
Definition set_panicked (x : bool) (w : World) : World :=
  mkWorld (session w) (closed_pools w) (n_open w) (n_ping w) (n_acquire w) (sup w) (monitors w)
    (getters w) (closers w) (stdout w) x (sleeps w) (connected w) (probe_failed w).
Definition set_sleeps (x : nat) (w : World) : World :=
  mkWorld (session w) (closed_pools w) (n_open w) (n_ping w) (n_acquire w) (sup w) (monitors w)
    (getters w) (closers w) (stdout w) (panicked w) x (connected w) (probe_failed w).
Definition set_connected (x : bool) (w : World) : World :=
  mkWorld (session w) (closed_pools w) (n_open w) (n_ping w) (n_acquire w) (sup w) (monitors w)
    (getters w) (closers w) (stdout w) (panicked w) (sleeps w) x (probe_failed w).
Definition set_probe_failed (x : bool) (w : World) : World :=
  mkWorld (session w) (closed_pools w) (n_open w) (n_ping w) (n_acquire w) (sup w) (monitors w)
    (getters w) (closers w) (stdout w) (panicked w) (sleeps w) (connected w) x.

Definition set_params (x : DB_Params) (s : DB_Session) : DB_Session :=
  mkSession x (pool s) (done s) (notifyConnClose s) (isReady s).
Definition set_pool (x : option handle) (s : DB_Session) : DB_Session :=
  mkSession (params s) x (done s) (notifyConnClose s) (isReady s).
Definition set_done (x : chan) (s : DB_Session) : DB_Session :=
  mkSession (params s) (pool s) x (notifyConnClose s) (isReady s).
Definition set_notifyConnClose (x : chan) (s : DB_Session) : DB_Session :=
  mkSession (params s) (pool s) (done s) x (isReady s).
Definition set_isReady (x : bool) (s : DB_Session) : DB_Session :=
  mkSession (params s) (pool s) (done s) (notifyConnClose s) x.

(** List update by index; out of range it does nothing (the callers below
    only use indices they have just looked up). *)
Fixpoint list_set {X : Type} (i : nat) (x : X) (l : list X) : list X :=
  match l, i with
  | [], _ => []
  | _ :: t, O => x :: t
  | y :: t, S j => y :: list_set j x t
  end.

Definition chan_closed (c : chan) : bool :=
  match c with ChanClosed => true | ChanOpen => false end.

(** ** The monad of atomic actions *)

Inductive outcome (X : Type) : Type :=
| Ok (x : X) (w : World)           (* the action ran *)
| Panicked (w : World)             (* it panicked: the process dies *)
| Blocked.                         (* the goroutine cannot move now *)
Arguments Ok {X} x w.
Arguments Panicked {X} w.
Arguments Blocked {X}.

Definition M (X : Type) : Type := World -> outcome X.

Definition ret {X : Type} (x : X) : M X := fun w => Ok x w.

Definition bind {X Y : Type} (m : M X) (k : X -> M Y) : M Y :=
  fun w =>
    match m w with
    | Ok x w' => k x w'
    | Panicked w' => Panicked w'
    | Blocked => Blocked
    end.

Declare Scope go_scope.
Delimit Scope go_scope with go.
Notation "x <- m ;; k" := (bind m (fun x => k))
  (at level 61, m at next level, right associativity) : go_scope.
Notation "m ;; k" := (bind m (fun _ => k))
  (at level 61, right associativity) : go_scope.
Open Scope go_scope.

Definition panic {X : Type} : M X := fun w => Panicked w.
Definition block {X : Type} : M X := fun _ => Blocked.
Definition modify (f : World -> World) : M unit := fun w => Ok tt (f w).
Definition reads {X : Type} (f : World -> X) : M X := fun w => Ok (f w) w.

(** ** The program *)

Section Program.

Variable A : Adapter.

(** *** Atomic actions *)

Definition logger_Println (s : string) : M unit :=
  modify (fun w => set_stdout (Println s :: stdout w) w).

Definition logger_Printf (e : error) : M unit :=
  modify (fun w => set_stdout (PrintError e :: stdout w) w).

Definition load_isReady : M bool := reads (fun w => isReady (session w)).

Definition store_isReady (b : bool) : M unit :=
  modify (fun w => set_session (set_isReady b (session w)) w).

Definition store_pool (p : handle) : M unit :=
  modify (fun w => set_session (set_pool (Some p) (session w)) w).

(** A receive from [done] or from a closed [notifyConnClose] can proceed
    exactly when the channel is closed. *)
Definition done_closed : M bool := reads (fun w => chan_closed (done (session w))).
Definition notify_closed : M bool :=
  reads (fun w => chan_closed (notifyConnClose (session w))).

(** close(ch) panics on a channel that is closed already. *)
Definition close_done : M unit :=
  fun w =>
    match done (session w) with
    | ChanClosed => Panicked w
    | ChanOpen => Ok tt (set_session (set_done ChanClosed (session w)) w)
    end.

Definition close_notifyConnClose : M unit :=
  fun w =>
    match notifyConnClose (session w) with
    | ChanClosed => Panicked w
    | ChanOpen => Ok tt (set_session (set_notifyConnClose ChanClosed (session w)) w)
    end.

(** The pool library.  A method call on the nil pool is a nil dereference. *)
Definition pgxpool_NewWithConfig : M (handle + error) :=
  fun w =>
    let k := n_open w in
    Ok (if open_ok A k then inl k else inr (errAdapter OpOpen k)) (set_n_open (S k) w).

Definition pool_Ping : M (option error) :=
  fun w =>
    match pool (session w) with
    | None => Panicked w
    | Some _ =>
        let k := n_ping w in
        Ok (if ping_ok A k then None else Some (errAdapter OpPing k)) (set_n_ping (S k) w)
    end.

Definition pool_Acquire : M (conn + error) :=
  fun w =>
    match pool (session w) with
    | None => Panicked w
    | Some p =>
        let k := n_acquire w in
        Ok (if acquire_ok A k then inl (mkConn p k) else inr (errAdapter OpAcquire k))
           (set_n_acquire (S k) w)
    end.

Definition load_pool : M (option handle) := reads (fun w => pool (session w)).

Definition pool_Close (p : option handle) : M unit :=
  fun w =>
    match p with
    | None => Panicked w
    | Some h => Ok tt (set_closed_pools (h :: closed_pools w) w)
    end.

(** go func() { ... }() of [connect]: a new monitor, waiting for its ticker. *)
Definition go_monitor : M unit :=
  modify (fun w => set_monitors (monitors w ++ [mkMon MonTick (pool (session w))]) w).

(** The timer of the supervisor's backoff select fired. *)
Definition time_After : M unit := modify (fun w => set_sleeps (S (sleeps w)) w).

(** History only. *)
Definition note_connect (ok : bool) : M unit :=
  modify (fun w => if ok then set_probe_failed false (set_connected true w)
                   else set_connected false w).
Definition note_probe_failed : M unit := modify (set_probe_failed true).

(** *** The methods, run without interruption *)

(** func (session *DB_Session) ping() error *)
Definition ping : M (option error) :=
  err <- pool_Ping ;;
  match err with
  | Some e => ret (Some e)
  | None => ret None
  end.

(** func (session *DB_Session) connect() error *)
Definition connect : M (option error) :=
  r <- pgxpool_NewWithConfig ;;
  match r with
  | inr e => note_connect false ;; ret (Some e)
  | inl p =>
      store_pool p ;;
      err <- ping ;;
      match err with
      | Some e => note_connect false ;; ret (Some e)
      | None =>
          note_connect true ;;
          go_monitor ;;
          store_isReady true ;;
          logger_Println "DB connected!" ;;
          logger_Println "DB setup!" ;;
          ret None
      end
  end.

(** func (session *DB_Session) getConnection(): a connection or an error *)
Definition getConnection : M (conn + error) :=
  ready <- load_isReady ;;
  if negb ready then ret (inr errAlreadyClosed)
  else
    r <- pool_Acquire ;;
    match r with
    | inr e => ret (inr e)
    | inl c => ret (inl c)
    end.

(** func (session *DB_Session) Close() error *)
Definition Close : M (option error) :=
  logger_Println "Stopping DB" ;;
  ready <- load_isReady ;;
  if negb ready then ret (Some errAlreadyClosed)
  else
    p <- load_pool ;;
    pool_Close p ;;
    close_done ;;
    close_notifyConnClose ;;
    store_isReady false ;;
    ret None.

(** *** The goroutines, one atomic action at a time *)

(** handleReconnect, with [connect] inlined at its call. *)
Definition handleReconnect_step (pc : sup_pc) : M sup_pc :=
  match pc with
  | SupLoop =>                                   (* lines 62-63 *)
      store_isReady false ;;
      logger_Println "DB attempting to connect" ;;
      ret SupConnect
  | SupConnect =>                                (* lines 65, 88-92; 67-68 on error *)
      r <- pgxpool_NewWithConfig ;;
      match r with
      | inr e => note_connect false ;; logger_Printf e ;; ret SupBackoff
      | inl p => store_pool p ;; ret SupPing
      end
  | SupPing =>                                   (* lines 94-97; 67-68 on error *)
      err <- ping ;;
      match err with
      | Some e => note_connect false ;; logger_Printf e ;; ret SupBackoff
      | None => note_connect true ;; ret SupSpawn
      end
  | SupSpawn =>                                  (* lines 99-110: the new goroutine
                                                    starts by waiting for its ticker *)
      go_monitor ;;
      ret SupReady
  | SupReady =>                                  (* line 112 *)
      store_isReady true ;;
      ret SupLogs
  | SupLogs =>                                   (* lines 113-116, back at line 78 *)
      logger_Println "DB connected!" ;;
      logger_Println "DB setup!" ;;
      ret SupWait
  | SupBackoff =>                                (* lines 70-75 *)
      closed <- done_closed ;;
      if closed then ret SupExit
      else (time_After ;; ret SupLoop)
  | SupWait => block                             (* see the two cases below *)
  | SupExit => block
  end.

(** select of line 78, case <-session.done *)
Definition handleReconnect_done : M sup_pc :=
  closed <- done_closed ;;
  if closed then ret SupExit else block.

(** The sender of a hand-off leaves its loop (break, line 107). *)
Definition sender_leaves (i : nat) : M unit :=
  fun w =>
    match nth_error (monitors w) i with
    | Some (mkMon MonSend p) => Ok tt (set_monitors (list_set i (mkMon MonExit p) (monitors w)) w)
    | _ => Blocked
    end.

(** select of line 78, case <-session.notifyConnClose: the zero value of the
    closed channel ([None]) or the value monitor [i] is sending ([Some i]). *)
Definition handleReconnect_recv (src : option nat) : M sup_pc :=
  closed <- notify_closed ;;
  match src with
  | None =>
      if closed
      then (logger_Println "DB connection closed. Reconnecting..." ;; ret SupLoop)
      else block
  | Some i =>
      if closed then block
      else (sender_leaves i ;;
            logger_Println "DB connection closed. Reconnecting..." ;;
            ret SupLoop)
  end.

(** The goroutine started by [connect], lines 99-110. *)
Definition monitor_step (pc : mon_pc) : M mon_pc :=
  match pc with
  | MonTick =>                                   (* lines 103-105 *)
      err <- ping ;;
      match err with
      | Some _ => note_probe_failed ;; ret MonSend
      | None => ret MonTick
      end
  | MonSend =>                                   (* line 106 *)
      closed <- notify_closed ;;
      if closed then panic                       (* send on closed channel *)
      else block                                 (* until the supervisor receives *)
  | MonExit => block
  end.

(** GetConnection, with [getConnection] inlined at its call. *)
Definition GetConnection_step (g : getter) : M getter :=
  match get_at g with
  | GetCall =>                                   (* lines 129, 144-146; 130-131 *)
      ready <- load_isReady ;;
      if negb ready
      then (logger_Println "Push failed. Retrying..." ;; ret (mkGet GetSelect (get_waits g)))
      else ret (mkGet GetAcquire (get_waits g))
  | GetAcquire =>                                (* lines 147-151; 130-131, 139 *)
      r <- pool_Acquire ;;
      match r with
      | inr _ => logger_Println "Push failed. Retrying..." ;; ret (mkGet GetSelect (get_waits g))
      | inl c => ret (mkGet (GetRet (inl c)) (get_waits g))
      end
  | GetSelect =>                                 (* lines 132-137 *)
      closed <- done_closed ;;
      if closed then ret (mkGet (GetRet (inr errShutdown)) (get_waits g))
      else ret (mkGet GetCall (S (get_waits g)))
  | GetRet _ => block
  end.

Definition Close_step (pc : close_pc) : M close_pc :=
  match pc with
  | CloseCall =>                                 (* lines 155-158 *)
      logger_Println "Stopping DB" ;;
      ready <- load_isReady ;;
      if negb ready then ret (CloseRet (Some errAlreadyClosed)) else ret ClosePool
  | ClosePool => p <- load_pool ;; ret (CloseLoaded p)    (* line 159 *)
  | CloseLoaded p => pool_Close p ;; ret CloseDone        (* line 159 *)
  | CloseDone => close_done ;; ret CloseNotify            (* line 160 *)
  | CloseNotify => close_notifyConnClose ;; ret CloseClear (* line 161 *)
  | CloseClear => store_isReady false ;; ret (CloseRet None) (* lines 162-163 *)
  | CloseRet _ => block
  end.

(** *** Scheduling *)

Inductive event :=
| ESup                             (* the supervisor's next action *)
| ESupDone                         (* line 78 takes the done case *)
| ESupRecv (src : option nat)      (* line 78 takes the notifyConnClose case *)
| EMon (i : nat)                   (* monitor i *)
| ECallGet                         (* a goroutine calls GetConnection *)
| EGet (i : nat)                   (* the i-th GetConnection call moves *)
| ECallClose                       (* a goroutine calls Close *)
| EClose (i : nat).                (* the i-th Close call moves *)

Definition finish {X : Type} (o : outcome X) (k : X -> World -> World) : option World :=
  match o with
  | Ok x w => Some (k x w)
  | Panicked w => Some (set_panicked true w)
  | Blocked => None
  end.

Definition step (e : event) (w : World) : option World :=
  if panicked w then None
  else
    match e with
    | ESup => finish (handleReconnect_step (sup w) w) set_sup
    | ESupDone =>
        match sup w with
        | SupWait => finish (handleReconnect_done w) set_sup
        | _ => None
        end
    | ESupRecv src =>
        match sup w with
        | SupWait => finish (handleReconnect_recv src w) set_sup
        | _ => None
        end
    | EMon i =>
        match nth_error (monitors w) i with
        | Some m =>
            finish (monitor_step (mon_at m) w)
              (fun pc w' => set_monitors (list_set i (mkMon pc (mon_pool m)) (monitors w')) w')
        | None => None
        end
    | ECallGet => Some (set_getters (getters w ++ [mkGet GetCall 0]) w)
    | EGet i =>
        match nth_error (getters w) i with
        | Some g =>
            finish (GetConnection_step g w)
              (fun g' w' => set_getters (list_set i g' (getters w')) w')
        | None => None
        end
    | ECallClose => Some (set_closers (closers w ++ [CloseCall]) w)
    | EClose i =>
        match nth_error (closers w) i with
        | Some pc =>
            finish (Close_step pc w)
              (fun pc' w' => set_closers (list_set i pc' (closers w')) w')
        | None => None
        end
    end.

Fixpoint run (evs : list event) (w : World) : option World :=
  match evs with
  | [] => Some w
  | e :: rest =>
      match step e w with
      | Some w' => run rest w'
      | None => None
      end
  end.

(** func NewDB(params *DB_Params) *DB_Session.  The argument is a pointer:
    [None] is nil.  The result [None] is a panic: the nil dereference of
    session.params.Server at line 46, or panic(err) on a config that
    ParseConfig rejects; otherwise the session exists and the supervisor has
    been started. *)
Definition NewDB (params : option DB_Params) : option World :=
  match params with
  | None => None
  | Some p =>
      if config_ok A (Server p)
      then Some (mkWorld (mkSession p None ChanOpen ChanOpen false) [] 0 0 0
                   SupLoop [] [] []
                   [Println "DB starting connection"; Println "DB config valid!"]
                   false 0 false false)
      else None
  end.

Inductive reachable (p : DB_Params) : World -> Prop :=
| reach_new w : NewDB (Some p) = Some w -> reachable p w
| reach_step w e w' : reachable p w -> step e w = Some w' -> reachable p w'.

End Program.

Arguments reach_new {A p w}.
Arguments reach_step {A p w} e {w'}.

(** ** What the claims talk about *)

(** A pool handle is live when it is installed and has not been closed. *)
Definition live_pool (w : World) : Prop :=
  exists p, pool (session w) = Some p /\ ~ In p (closed_pools w).

Definition active (m : monitor) : bool :=
  match mon_at m with
  | MonExit => false
  | _ => true
  end.

Definition active_monitors (w : World) : nat := length (filter active (monitors w)).

(** No Close call has found the session ready so far: each one is still at
    its first statement or has returned an error. *)
Definition close_quiet (c : close_pc) : bool :=
  match c with
  | CloseCall | CloseRet (Some _) => true
  | _ => false
  end.

Definition quiet (w : World) : bool := forallb close_quiet (closers w).

(** Changing the configured bound, and nothing else. *)
Definition with_max (m : Z) (p : DB_Params) : DB_Params := mkParams (Server p) m.

Definition world_with_max (m : Z) (w : World) : World :=
  set_session (set_params (with_max m (params (session w))) (session w)) w.

(** The adapters and schedules used as concrete inputs. *)
Definition always (_ : nat) : bool := true.
Definition never (_ : nat) : bool := false.

Definition adapter_up : Adapter := mkAdapter (fun _ => true) always always always.
Definition adapter_down : Adapter := mkAdapter (fun _ => true) never always always.
Definition adapter_flaky : Adapter :=      (* the second ping fails *)
  mkAdapter (fun _ => true) always (fun k => negb (k =? 1)) always.
Definition adapter_sick : Adapter :=       (* opens succeed, pings fail *)
  mkAdapter (fun _ => true) always never always.

Definition params0 : DB_Params := mkParams "postgres://bot@db/books" 3.

Definition world0 : World :=
  mkWorld (mkSession params0 None ChanOpen ChanOpen false) [] 0 0 0
    SupLoop [] [] []
    [Println "DB starting connection"; Println "DB config valid!"]
    false 0 false false.

(** One whole Close call by a new goroutine, not interleaved with anything. *)
Definition close_call (i : nat) : list event :=
  [ECallClose; EClose i; EClose i; EClose i; EClose i; EClose i; EClose i].

(** One connect attempt of the supervisor that succeeds. *)
Definition sup_connects : list event := [ESup; ESup; ESup; ESup; ESup; ESup].

(** One connect attempt that fails at the open, and the delay after it. *)
Definition sup_fails : list event := [ESup; ESup; ESup].

Fixpoint cycles (n : nat) (evs : list event) : list event :=
  match n with
  | O => []
  | S k => evs ++ cycles k evs
  end.

(** The supervisor reaches line 78 just as a Close call runs; its select then
    finds both channels closed and takes the notifyConnClose case. *)
Definition race_schedule : list event :=
  sup_connects ++ close_call 0 ++ [ESupRecv None; ESup; ESup].

(** ** Invariants

    [safe] holds in every reachable state.  [calm] holds as long as no Close
    call has found the session ready ([quiet]). *)

(** What a finished GetConnection call may hold, given the state of [done]. *)
Definition returned_ok (d : chan) (r : conn + error) : Prop :=
  (exists c, r = inl c) \/ (r = inr errShutdown /\ d = ChanClosed).

(** The supervisor is between line 62 and line 112. *)
Definition sup_before_ready (pc : sup_pc) : bool :=
  match pc with
  | SupConnect | SupPing | SupSpawn | SupReady | SupBackoff => true
  | _ => false
  end.

(** Line 92 has run in this iteration. *)
Definition sup_has_pool (pc : sup_pc) : bool :=
  match pc with
  | SupPing | SupSpawn | SupReady | SupLogs | SupWait => true
  | _ => false
  end.

(** The initial ping has passed and line 112 has not run yet. *)
Definition sup_pinged (pc : sup_pc) : bool :=
  match pc with
  | SupSpawn | SupReady => true
  | _ => false
  end.

(** The monitor of this iteration has been started (line 99) and the
    supervisor has not received from it. *)
Definition sup_monitored (pc : sup_pc) : bool :=
  match pc with
  | SupReady | SupLogs | SupWait => true
  | _ => false
  end.

(** Line 112 has run in this iteration. *)
Definition sup_after_ready (pc : sup_pc) : bool :=
  match pc with
  | SupLogs | SupWait => true
  | _ => false
  end.

Record safe (w : World) : Prop := mkSafe {
  safe_exit : sup w = SupExit -> done (session w) = ChanClosed;
  safe_ret : forall i g r, nth_error (getters w) i = Some g ->
             get_at g = GetRet r -> returned_ok (done (session w)) r;
  safe_clear : sup_before_ready (sup w) = true -> isReady (session w) = false;
  safe_pool : sup_has_pool (sup w) = true -> pool (session w) <> None;
  safe_conn : sup_pinged (sup w) = true -> connected w = true;
  safe_ready : isReady (session w) = true ->
               connected w = true /\ pool (session w) <> None;
  safe_notify : notifyConnClose (session w) = ChanClosed ->
                done (session w) = ChanClosed;
  safe_panic : panicked w = true -> done (session w) = ChanClosed;
  safe_mon : forall i m, nth_error (monitors w) i = Some m ->
             pool (session w) <> None;
  safe_get : forall i g, nth_error (getters w) i = Some g ->
             get_at g = GetAcquire -> pool (session w) <> None;
  safe_close : forall i, nth_error (closers w) i = Some ClosePool ->
               pool (session w) <> None;
  safe_load : forall i p, nth_error (closers w) i = Some (CloseLoaded p) ->
              p <> None;
  safe_fresh : forall p, pool (session w) = Some p -> p < n_open w;
  safe_order : forall i, nth_error (closers w) i = Some CloseNotify ->
               done (session w) = ChanClosed
}.

Record calm (w : World) : Prop := mkCalm {
  calm_panic : panicked w = false;
  calm_done : done (session w) = ChanOpen;
  calm_notify : notifyConnClose (session w) = ChanOpen;
  calm_pools : closed_pools w = [];
  calm_count : active_monitors w = if sup_monitored (sup w) then 1 else 0;
  calm_wait : sup_after_ready (sup w) = true -> isReady (session w) = true;
  calm_loop : sup w = SupLoop -> isReady (session w) = connected w;
  calm_back : sup w = SupBackoff -> connected w = false;
  calm_probe : sup w = SupLoop -> connected w = true -> probe_failed w = true;
  calm_spawn : sup w = SupSpawn -> probe_failed w = false;
  calm_get : forall i g, nth_error (getters w) i = Some g ->
             get_at g = GetAcquire -> pool (session w) <> None;
  calm_mon : forall i m, nth_error (monitors w) i = Some m ->
             active m = true -> mon_pool m = pool (session w);
  calm_tick : forall i m, nth_error (monitors w) i = Some m ->
              mon_at m = MonTick -> probe_failed w = false;
  calm_send : forall i m, nth_error (monitors w) i = Some m ->
              mon_at m = MonSend -> probe_failed w = true
}.


(** ** The claims as the specification words them *)

(** Readiness as the specification defines it: a live pool handle, the open
    and the initial ping of the latest connect attempt passed, and no
    health check has failed since. *)
Definition healthy (w : World) : Prop :=
  live_pool w /\ connected w = true /\ probe_failed w = false.

Definition readiness_is_health : Prop :=
  forall A p w, reachable A p w -> (isReady (session w) = true <-> healthy w).

Definition one_monitor_per_handle : Prop :=
  forall A p w, reachable A p w -> live_pool w -> active_monitors w <= 1.

Definition unwrap (o : option World) : World :=
  match o with
  | Some w => w
  | None => world0
  end.

Definition world_ready : World :=
  Eval vm_compute in unwrap (run adapter_up sup_connects world0).

Definition world_probe_failed : World :=
  Eval vm_compute in unwrap (run adapter_flaky (sup_connects ++ [EMon 0]) world0).

Definition world_closed : World :=
  Eval vm_compute in unwrap (run adapter_up (sup_connects ++ close_call 0) world0).

Definition world_reopened : World :=
  Eval vm_compute in unwrap (run adapter_up race_schedule world0).

Definition world_two_monitors : World :=
  Eval vm_compute in unwrap (run adapter_up (race_schedule ++ [ESup; ESup; ESup]) world0).

Definition world_waiting : World :=
  Eval vm_compute in unwrap (run adapter_up [ECallGet; EGet 0] world0).

(** ** Schedules and states for the rest of the code *)

(** Events that stand for reads of the session only. *)
Definition reads_only (e : event) : bool :=
  match e with
  | EMon _ | EGet _ | ECallGet | ECallClose | ESupDone | ESupRecv _ => true
  | ESup | EClose _ => false
  end.

Definition world_stopped : World :=
  Eval vm_compute in unwrap (run adapter_up (sup_connects ++ close_call 0 ++ [ESupDone]) world0).

Definition world_reconnected : World :=
  Eval vm_compute in
    unwrap (run adapter_flaky (sup_connects ++ [EMon 0; ESupRecv (Some 0)] ++ sup_connects) world0).

Definition world_closed_flaky : World :=
  Eval vm_compute in unwrap (run adapter_flaky (sup_connects ++ close_call 0) world0).

(** Two Close calls that both pass the readiness check before either goes on. *)
Definition two_close_calls (n : nat) : list event :=
  [ECallClose; ECallClose; EClose n; EClose (S n);
   EClose n; EClose n; EClose n; EClose (S n); EClose (S n); EClose (S n)].

(** A GetConnection call made before the supervisor has connected. *)
Definition early_call : list event :=
  [ECallGet; EGet 0] ++ sup_connects ++ [EGet 0; EGet 0; EGet 0].

(** ** Lists *)

Lemma list_set_length {X : Type} (i : nat) (x : X) (l : list X) :
  length (list_set i x l) = length l.
Proof.
  revert i; induction l as [|y t IH]; intros [|j]; simpl; auto.
Qed.

Lemma nth_error_list_set_eq {X : Type} (i : nat) (x y : X) (l : list X) :
  nth_error l i = Some y -> nth_error (list_set i x l) i = Some x.
Proof.
  revert i; induction l as [|z t IH]; intros [|j]; simpl; intros H;
    try discriminate; auto.
Qed.

Lemma nth_error_list_set_neq {X : Type} (i j : nat) (x : X) (l : list X) :
  i <> j -> nth_error (list_set i x l) j = nth_error l j.
Proof.
  revert i j; induction l as [|z t IH]; intros [|i] [|j] H; simpl; auto.
  congruence.
Qed.

Lemma nth_error_list_set {X : Type} (i j : nat) (x y : X) (l : list X) :
  nth_error (list_set i x l) j = Some y ->
  (i = j /\ y = x) \/ (i <> j /\ nth_error l j = Some y).
Proof.
  intros H. destruct (Nat.eq_dec i j) as [->|Hij].
  - destruct (nth_error l j) as [z|] eqn:Hz.
    + rewrite (nth_error_list_set_eq _ _ _ _ Hz) in H. left; split; congruence.
    + apply nth_error_None in Hz. 
      assert (nth_error (list_set j x l) j = None) as Hn
        by (apply nth_error_None; rewrite list_set_length; exact Hz).
      congruence.
  - rewrite nth_error_list_set_neq in H by exact Hij. now right.
Qed.

Lemma nth_error_snoc {X : Type} (l : list X) (x y : X) (j : nat) :
  nth_error (l ++ [x]) j = Some y -> nth_error l j = Some y \/ y = x.
Proof.
  intros H. destruct (Nat.lt_ge_cases j (length l)) as [Hlt|Hge].
  - rewrite nth_error_app1 in H by exact Hlt. now left.
  - rewrite nth_error_app2 in H by exact Hge.
    destruct (j - length l) as [|[|k]]; simpl in H; try discriminate.
    right; congruence.
Qed.

Lemma forallb_list_set_back {X : Type} (f : X -> bool) (i : nat) (x y : X) (l : list X) :
  nth_error l i = Some y -> f y = true ->
  forallb f (list_set i x l) = true -> forallb f l = true.
Proof.
  revert i; induction l as [|z t IH]; intros [|j]; simpl; intros Hy Hf H;
    try discriminate.
  - injection Hy as ->. apply andb_true_iff in H as [_ H]. now rewrite Hf, H.
  - apply andb_true_iff in H as [Hz H]. rewrite Hz. simpl. eauto.
Qed.

Lemma forallb_list_set_new {X : Type} (f : X -> bool) (i : nat) (x y : X) (l : list X) :
  nth_error l i = Some y ->
  forallb f (list_set i x l) = true -> f x = true.
Proof.
  revert i; induction l as [|z t IH]; intros [|j]; simpl; intros Hy H;
    try discriminate.
  - now apply andb_true_iff in H as [H _].
  - apply andb_true_iff in H as [_ H]. eauto.
Qed.

Lemma filter_none {X : Type} (f : X -> bool) (l : list X) (i : nat) (x : X) :
  length (filter f l) = 0 -> nth_error l i = Some x -> f x = false.
Proof.
  revert i; induction l as [|z t IH]; intros [|j]; simpl; intros H Hx;
    try discriminate.
  - injection Hx as ->. destruct (f x); [discriminate|reflexivity].
  - destruct (f z); [discriminate|]. eauto.
Qed.

Lemma filter_list_set {X : Type} (f : X -> bool) (i : nat) (x y : X) (l : list X) :
  nth_error l i = Some y ->
  length (filter f (list_set i x l)) + (if f y then 1 else 0)
  = length (filter f l) + (if f x then 1 else 0).
Proof.
  revert i; induction l as [|z t IH]; intros [|j]; simpl; intros Hy;
    try discriminate.
  - injection Hy as ->. destruct (f x), (f y); simpl; lia.
  - specialize (IH _ Hy). destruct (f z); simpl; lia.
Qed.

Lemma filter_snoc {X : Type} (f : X -> bool) (x : X) (l : list X) :
  length (filter f (l ++ [x])) = length (filter f l) + (if f x then 1 else 0).
Proof.
  rewrite filter_app, length_app. simpl. destruct (f x); reflexivity.
Qed.

(** ** Runs *)

Lemma run_app (A : Adapter) (e1 e2 : list event) (w : World) :
  run A (e1 ++ e2) w =
  match run A e1 w with
  | Some w' => run A e2 w'
  | None => None
  end.
Proof.
  revert w; induction e1 as [|e t IH]; intros w; simpl; [reflexivity|].
  destruct (step A e w); auto.
Qed.

Lemma run_reachable (A : Adapter) (p : DB_Params) (evs : list event) (w w' : World) :
  reachable A p w -> run A evs w = Some w' -> reachable A p w'.
Proof.
  revert w; induction evs as [|e t IH]; intros w Hw H; simpl in H.
  - injection H as <-. exact Hw.
  - destruct (step A e w) as [w1|] eqn:Hs; [|discriminate].
    exact (IH _ (reach_step e Hw Hs) H).
Qed.

Lemma reachable_from_new (A : Adapter) (p : DB_Params) (evs : list event) (w0 w : World) :
  NewDB A (Some p) = Some w0 -> run A evs w0 = Some w -> reachable A p w.
Proof.
  intros H0 H. exact (run_reachable _ _ _ _ _ (reach_new H0) H).
Qed.

(** Case analysis of one step: every branch the program can take. *)
Ltac unfold_program :=
  unfold step, finish, handleReconnect_step, handleReconnect_done,
    handleReconnect_recv, sender_leaves, monitor_step, GetConnection_step,
    Close_step, connect, getConnection, Close, ping, pool_Ping, pool_Acquire,
    load_pool, pool_Close, pgxpool_NewWithConfig, close_done, close_notifyConnClose,
    go_monitor, time_After, note_connect, note_probe_failed, logger_Println,
    logger_Printf, load_isReady, store_isReady, store_pool, done_closed,
    notify_closed, bind, ret, panic, block, modify, reads in *.

Ltac break_in H :=
  repeat (simpl in H;
    match type of H with
    | context [match ?x with _ => _ end] =>
        lazymatch x with
        | context [match _ with _ => _ end] => fail
        | _ => idtac
        end;
        destruct x eqn:?; try discriminate H
    end);
  simpl in H; try discriminate H.

Ltac step_cases H :=
  unfold_program; break_in H;
  try (injection H as H); subst; simpl in *.

(** ** The invariants are preserved *)

Lemma returned_ok_closed d r : returned_ok d r -> returned_ok ChanClosed r.
Proof. intros [H|[H _]]; [left|right]; auto. Qed.


Lemma chan_closed_true c : chan_closed c = true -> c = ChanClosed.
Proof. destruct c; simpl; congruence. Qed.

Lemma chan_closed_false c : chan_closed c = false -> c = ChanOpen.
Proof. destruct c; simpl; congruence. Qed.

Ltac use_inv :=
  repeat match goal with
  | H : ?a = ?a -> _ |- _ => specialize (H eq_refl)
  | H : false = true -> _ |- _ => clear H
  | H : ?x = ?y -> _, E : ?x = ?y |- _ => specialize (H E)
  | H : chan_closed _ = true |- _ => apply chan_closed_true in H
  | H : chan_closed _ = false |- _ => apply chan_closed_false in H
  | H : _ /\ _ |- _ => destruct H
  end.

Ltac split_lookup :=
  match goal with
  | H : nth_error (list_set _ _ _) _ = Some _ |- _ =>
      apply nth_error_list_set in H as [[? ?]|[? H]]; subst; simpl in *
  | H : nth_error (_ ++ [_]) _ = Some _ |- _ =>
      apply nth_error_snoc in H as [H|?]; subst; simpl in *
  end.

Ltac nil_deref :=
  exfalso;
  match goal with
  | H : forall i m, nth_error (monitors _) i = Some m -> None <> None,
    Hn : nth_error (monitors _) _ = Some _ |- _ => exact (H _ _ Hn eq_refl)
  | H : forall i g, nth_error (getters _) i = Some g -> _ -> None <> None,
    Hn : nth_error (getters _) _ = Some _, Ha : get_at _ = GetAcquire |- _ =>
      exact (H _ _ Hn Ha eq_refl)
  | H : forall i p, nth_error (closers _) i = Some (CloseLoaded p) -> p <> None,
    Hn : nth_error (closers _) _ = Some (CloseLoaded None) |- _ =>
      exact (H _ _ Hn eq_refl)
  | H : true = true -> None <> None |- _ => exact (H eq_refl eq_refl)
  end.

Lemma safe_step A e w w' : safe w -> step A e w = Some w' -> safe w'.
Proof.
  intros [H1 H2 H3 H4 Hc H5 H6 H7 H8 H9 H10 Hl H11 H12] H.
  step_cases H.
  all: try solve [nil_deref].
  all: constructor; simpl; intros; try discriminate; try congruence; eauto.
  all: try split_lookup; use_inv; try discriminate; try congruence;
    eauto using returned_ok_closed.
  all: try (split; congruence).
  all: try match goal with
       | H : GetRet _ = GetRet _ |- _ => injection H as <-
       end.
  all: try first [ left; eexists; reflexivity | right; split; congruence ].
  all: try match goal with E : done _ = _ |- _ => rewrite E end; eauto.
  all: try solve [match goal with H : Some _ = Some _ |- _ => injection H as <- end; lia].
  all: try solve [match goal with H : forall p, _ -> p < _ |- _ => apply H end; congruence].
  all: try solve [match goal with
                  | H : forall p, _ -> p < _, E : _ = Some _ |- _ =>
                      specialize (H _ E); lia
                  end].
  all: try solve [match goal with
                  | H : negb _ = false |- _ => apply negb_false_iff in H
                  end; use_inv; auto].
  all: try solve [match goal with
                  | H : CloseLoaded _ = CloseLoaded _ |- _ => injection H as ->
                  end; eauto].
Qed.

Lemma filter_some {X : Type} (f : X -> bool) (l : list X) (i : nat) (x : X) :
  nth_error l i = Some x -> f x = true -> 1 <= length (filter f l).
Proof.
  intros Hx Hf. destruct (length (filter f l)) eqn:E; [|lia].
  rewrite (filter_none f l i x E Hx) in Hf. discriminate.
Qed.


Lemma filter_two {X : Type} (f : X -> bool) (l : list X) (i j : nat) (x y : X) :
  i <> j -> nth_error l i = Some x -> nth_error l j = Some y ->
  f x = true -> f y = true -> 2 <= length (filter f l).
Proof.
  revert i j; induction l as [|z t IH]; intros [|i] [|j] Hij Hx Hy Fx Fy;
    simpl in *; try discriminate; try congruence.
  - injection Hx as ->. rewrite Fx. simpl.
    pose proof (filter_some f t j y Hy Fy). lia.
  - injection Hy as ->. rewrite Fy. simpl.
    pose proof (filter_some f t i x Hx Fx). lia.
  - assert (i <> j) as Hn by congruence.
    specialize (IH i j Hn Hx Hy Fx Fy). destruct (f z); simpl; lia.
Qed.

Lemma filter_exists {X : Type} (f : X -> bool) (l : list X) :
  1 <= length (filter f l) -> exists i x, nth_error l i = Some x /\ f x = true.
Proof.
  induction l as [|z t IH]; simpl; intros H; [lia|].
  destruct (f z) eqn:E.
  - exists 0, z. split; [reflexivity|exact E].
  - destruct (IH H) as (i & x & Hi & Hx). exists (S i), x. split; assumption.
Qed.

Ltac no_active :=
  match goal with
  | Hc : length (filter active ?l) = 0, Hn : nth_error ?l _ = Some ?m,
    Ha : active ?m = true |- _ =>
      rewrite (filter_none _ _ _ _ Hc Hn) in Ha; discriminate Ha
  | Hc : length (filter active ?l) = 0, Hn : nth_error ?l _ = Some ?m,
    Ha : mon_at ?m = MonSend |- _ =>
      let F := fresh in
      pose proof (filter_none _ _ _ _ Hc Hn) as F; unfold active in F;
      rewrite Ha in F; discriminate F
  | Hc : length (filter active ?l) = 0, Hn : nth_error ?l _ = Some ?m,
    Ha : mon_at ?m = MonTick |- _ =>
      let F := fresh in
      pose proof (filter_none _ _ _ _ Hc Hn) as F; unfold active in F;
      rewrite Ha in F; discriminate F
  end.


Lemma sup_monitored_has_pool (pc : sup_pc) :
  sup_monitored pc = true -> sup_has_pool pc = true.
Proof. destruct pc; simpl; congruence. Qed.

Lemma calm_active_pool (w : World) (i : nat) (m : monitor) :
  safe w -> calm w -> nth_error (monitors w) i = Some m -> active m = true ->
  sup_monitored (sup w) = true /\ pool (session w) <> None.
Proof.
  intros HS HC Hm Ha.
  pose proof (filter_some _ _ _ _ Hm Ha) as Hn.
  pose proof (calm_count _ HC) as Hc. unfold active_monitors in Hc.
  assert (sup_monitored (sup w) = true) as E
    by (destruct (sup_monitored (sup w)); [reflexivity|lia]).
  split; [exact E|]. apply (safe_pool _ HS). now apply sup_monitored_has_pool.
Qed.

Ltac mon_active :=
  match goal with
  | Hm : mon_at ?m = MonTick |- _ =>
      assert (active m = true) by (unfold active; rewrite Hm; reflexivity)
  | Hm : mon_at ?m = MonSend |- _ =>
      assert (active m = true) by (unfold active; rewrite Hm; reflexivity)
  end.

Ltac count_monitors :=
  match goal with
  | |- context [filter active (_ ++ [_])] => rewrite filter_snoc; simpl; lia
  | Hn : nth_error ?l ?i = Some ?m |- context [filter active (list_set ?i ?x ?l)] =>
      let F := fresh in
      pose proof (filter_list_set active i x m l Hn) as F;
      try mon_active;
      repeat match goal with
             | E : active _ = _ |- _ => rewrite E in F
             end;
      simpl in F;
      repeat match goal with
             | E : sup _ = _ |- _ => rewrite E in *
             end;
      lia
  end.

Lemma forallb_nth_error {X : Type} (f : X -> bool) (l : list X) (i : nat) (x : X) :
  forallb f l = true -> nth_error l i = Some x -> f x = true.
Proof.
  intros H Hx. rewrite forallb_forall in H. apply H. eapply nth_error_In; eauto.
Qed.

Ltac mon_active_all :=
  match goal with
  | Hm : mon_at ?m = MonTick |- _ =>
      lazymatch goal with
      | _ : active m = true |- _ => fail
      | _ => assert (active m = true) by (unfold active; rewrite Hm; reflexivity)
      end
  | Hm : mon_at ?m = MonSend |- _ =>
      lazymatch goal with
      | _ : active m = true |- _ => fail
      | _ => assert (active m = true) by (unfold active; rewrite Hm; reflexivity)
      end
  end.

Lemma calm_step A e w w' :
  safe w -> calm w -> step A e w = Some w' -> quiet w' = true -> calm w'.
Proof.
  intros HS HC H Q.
  pose proof (calm_active_pool w) as AP.
  specialize (fun i m => AP i m HS HC).
  destruct HS as [S1 S2 S3 S4 Sc S5 S6 S7 S8 S9 S10 Sl S11 S12].
  destruct HC as [C1 C2 C3 C4 C5 C6 Cl C7 C8 Cs C9 C10 Ct C11].
  unfold quiet, active_monitors in *.
  step_cases H.
  all: try match goal with
       | Hn : nth_error (closers _) _ = Some _,
         Hq : forallb close_quiet (list_set _ _ _) = true |- _ =>
           apply (forallb_list_set_new _ _ _ _ _ Hn) in Hq; try discriminate Hq
       end.
  all: repeat match goal with
       | E : sup _ = _ |- _ => progress (rewrite E in * ); simpl in *
       end.
  all: try congruence.
  all: try solve [use_inv; congruence].
  all: try no_active.
  all: try solve [exfalso; mon_active;
                  match goal with
                  | Hn : nth_error (monitors _) _ = Some ?m, Ha : active ?m = true |- _ =>
                      destruct (AP _ _ Hn Ha); congruence
                  end].
  all: try solve [exfalso; eapply C9; eauto].
  all: constructor; unfold active_monitors; simpl; intros;
    try discriminate; try congruence; eauto.
  all: try solve [use_inv; congruence].
  all: try no_active.
  all: try solve [count_monitors].
  all: try (split_lookup; try discriminate; try no_active; eauto).
  all: try solve [use_inv; congruence].
  all: repeat match goal with
       | E : pool (session ?w) = _ |- context [pool (session ?w)] => rewrite E
       end; eauto.
  all: try solve [mon_active; eauto].
  all: try solve [exfalso; mon_active;
                  match goal with
                  | Hn : nth_error (monitors _) _ = Some ?m, Ha : active ?m = true,
                    E : sup _ = _ |- _ =>
                      destruct (AP _ _ Hn Ha) as [F _]; rewrite E in F; discriminate F
                  end].
  all: try solve [exfalso; repeat mon_active_all;
    match goal with
    | Hij : ?i <> ?j, Hi : nth_error ?l ?i = Some ?x, Hj : nth_error ?l ?j = Some ?y,
      Ax : active ?x = true, Ay : active ?y = true |- _ =>
        pose proof (filter_two active _ _ _ _ _ Hij Hi Hj Ax Ay);
        destruct (sup_monitored (sup w)); lia
    end].
  all: try solve [apply S5; now apply negb_false_iff].
  all: try solve [match goal with
                  | Hn : nth_error (closers _) _ = Some _,
                    Hq : forallb close_quiet (closers _) = true |- _ =>
                      pose proof (forallb_nth_error _ _ _ _ Hq Hn) as F; discriminate F
                  end].
Qed.

(** ** Reachable states *)

Lemma quiet_back A e w w' : step A e w = Some w' -> quiet w' = true -> quiet w = true.
Proof.
  intros H Q. unfold quiet in *.
  step_cases H; auto.
  all: try (rewrite forallb_app in Q; apply andb_true_iff in Q as [Q _]; exact Q).
  all: match goal with
       | Hn : nth_error (closers _) _ = Some _ |- _ =>
           pose proof (forallb_list_set_new _ _ _ _ _ Hn Q) as F; try discriminate F;
           eapply forallb_list_set_back; eauto
       end.
Qed.

Lemma safe_new A p w : NewDB A (Some p) = Some w -> safe w.
Proof.
  unfold NewDB. destruct (config_ok A (Server p)); [|discriminate].
  intros H; injection H as <-.
  constructor; simpl; intros; try discriminate; try congruence;
    try (destruct i; discriminate).
Qed.

Lemma calm_new A p w : NewDB A (Some p) = Some w -> calm w.
Proof.
  unfold NewDB. destruct (config_ok A (Server p)); [|discriminate].
  intros H; injection H as <-.
  constructor; simpl; intros; try discriminate; try congruence;
    try (destruct i; discriminate); reflexivity.
Qed.

Lemma quiet_new A p w : NewDB A (Some p) = Some w -> quiet w = true.
Proof.
  unfold NewDB. destruct (config_ok A (Server p)); [|discriminate].
  intros H; injection H as <-. reflexivity.
Qed.

Lemma reachable_safe A p w : reachable A p w -> safe w.
Proof.
  induction 1 as [w H|w e w' _ IH H].
  - exact (safe_new _ _ _ H).
  - exact (safe_step _ _ _ _ IH H).
Qed.

Lemma reachable_calm A p w : reachable A p w -> quiet w = true -> calm w.
Proof.
  induction 1 as [w H|w e w' Hr IH H]; intros Q.
  - exact (calm_new _ _ _ H).
  - apply (calm_step _ _ _ _ (reachable_safe _ _ _ Hr) (IH (quiet_back _ _ _ _ H Q)) H Q).
Qed.

Lemma open_is_unpanicked (A : Adapter) (p : DB_Params) (w : World) :
  reachable A p w -> done (session w) = ChanOpen -> panicked w = false.
Proof.
  intros R Hd. destruct (panicked w) eqn:E; [|reflexivity].
  pose proof (safe_panic _ (reachable_safe _ _ _ R) E). congruence.
Qed.

Lemma NewDB_fresh (A : Adapter) (p : DB_Params) (w : World) :
  NewDB A (Some p) = Some w ->
  panicked w = false /\ sup w = SupLoop /\ done (session w) = ChanOpen /\
  n_open w = 0 /\ sleeps w = 0 /\ n_ping w = 0.
Proof.
  unfold NewDB. destruct (config_ok A (Server p)); [|discriminate].
  intros H; injection H as <-. repeat split.
Qed.

Lemma reachable_world_ready : reachable adapter_up params0 world_ready.
Proof.
  apply (reachable_from_new _ _ sup_connects world0); [|vm_compute]; reflexivity.
Qed.

Lemma reachable_world_probe_failed : reachable adapter_flaky params0 world_probe_failed.
Proof.
  apply (reachable_from_new _ _ (sup_connects ++ [EMon 0]) world0); [|vm_compute]; reflexivity.
Qed.

Lemma reachable_world_two_monitors : reachable adapter_up params0 world_two_monitors.
Proof.
  apply (reachable_from_new _ _ (race_schedule ++ [ESup; ESup; ESup]) world0); [|vm_compute]; reflexivity.
Qed.

Lemma reachable_world_waiting : reachable adapter_up params0 world_waiting.
Proof.
  apply (reachable_from_new _ _ [ECallGet; EGet 0] world0); [|vm_compute]; reflexivity.
Qed.

(** ** Uninterrupted runs *)

(** The methods of section "The methods" are what a goroutine does when
    nothing else moves in between. *)

Lemma nth_error_last {X : Type} (l : list X) (x : X) :
  nth_error (l ++ [x]) (length l) = Some x.
Proof. rewrite nth_error_app2, Nat.sub_diag by lia. reflexivity. Qed.

Lemma list_set_last {X : Type} (l : list X) (x y : X) :
  list_set (length l) x (l ++ [y]) = l ++ [x].
Proof. induction l as [|z t IH]; simpl; [reflexivity|now rewrite IH]. Qed.

Lemma step_last_closer (A : Adapter) (w : World) (l : list close_pc) (pc : close_pc) :
  panicked w = false -> closers w = l ++ [pc] ->
  step A (EClose (length l)) w =
  finish (Close_step pc w)
    (fun pc' w' => set_closers (list_set (length l) pc' (closers w')) w').
Proof.
  intros Hp Hc. unfold step. rewrite Hp, Hc, nth_error_last. reflexivity.
Qed.

Lemma run_step_eq (A : Adapter) (e : event) (rest : list event)
    (w w1 : World) (x : option World) :
  step A e w = Some w1 -> run A rest w1 = x -> run A (e :: rest) w = x.
Proof. intros H1 H2. simpl. now rewrite H1. Qed.

Ltac closer_moves pc :=
  eapply run_step_eq;
  [ erewrite (step_last_closer _ _ _ pc) by (simpl; first [eassumption|reflexivity]);
    unfold Close_step; unfold_program; simpl;
    repeat match goal with
           | E : _ = _ |- _ => rewrite E; simpl
           end;
    rewrite list_set_last; reflexivity
  | ].

Lemma Close_uninterrupted (A : Adapter) (w w1 : World) (r : option error) :
  panicked w = false -> Close w = Ok r w1 ->
  exists n, n <= 6 /\
    run A (ECallClose :: repeat (EClose (length (closers w))) n) w
    = Some (set_closers (closers w ++ [CloseRet r]) w1).
Proof.
  intros Hp H. unfold Close in H. unfold_program. simpl in H.
  destruct (isReady (session w)) eqn:Hr; simpl in H.
  - destruct (pool (session w)) as [h|] eqn:Hq; [|discriminate]. simpl in H.
    destruct (done (session w)) eqn:Hd; [|discriminate]. simpl in H.
    destruct (notifyConnClose (session w)) eqn:Hn; [|discriminate].
    injection H as <- <-.
    exists 6. split; [lia|]. simpl repeat.
    eapply run_step_eq; [unfold step; rewrite Hp; reflexivity|].
    closer_moves CloseCall. closer_moves ClosePool.
    closer_moves (CloseLoaded (Some h)). closer_moves CloseDone.
    closer_moves CloseNotify. closer_moves CloseClear.
    reflexivity.
  - injection H as <- <-.
    exists 1. split; [lia|]. simpl repeat.
    eapply run_step_eq; [unfold step; rewrite Hp; reflexivity|].
    closer_moves CloseCall.
    reflexivity.
Qed.

Ltac sup_moves :=
  eapply run_step_eq;
  [ unfold step, handleReconnect_step; unfold_program; simpl;
    repeat match goal with
           | E : _ = _ |- _ => rewrite E; simpl
           end;
    reflexivity
  | ].

Lemma connect_uninterrupted (A : Adapter) (w w1 : World) (r : option error) :
  panicked w = false -> sup w = SupConnect -> connect A w = Ok r w1 ->
  match r with
  | None => run A [ESup; ESup; ESup; ESup; ESup] w = Some (set_sup SupWait w1)
  | Some e =>
      exists n, n <= 2 /\
        run A (repeat ESup n) w
        = Some (set_sup SupBackoff (set_stdout (PrintError e :: stdout w1) w1))
  end.
Proof.
  intros Hp Hs H. unfold connect in H. unfold_program. simpl in H.
  destruct (open_ok A (n_open w)) eqn:Ho; simpl in H.
  - destruct (ping_ok A (n_ping w)) eqn:Hg; simpl in H; injection H as <- <-.
    + sup_moves. sup_moves. sup_moves. sup_moves. sup_moves. reflexivity.
    + exists 2. split; [lia|]. simpl repeat. sup_moves. sup_moves. reflexivity.
  - injection H as <- <-.
    exists 1. split; [lia|]. simpl repeat. sup_moves. reflexivity.
Qed.

Lemma failed_attempt (A : Adapter) (w : World) :
  panicked w = false -> sup w = SupLoop -> done (session w) = ChanOpen ->
  open_ok A (n_open w) = false ->
  exists w',
    run A sup_fails w = Some w' /\
    panicked w' = false /\ sup w' = SupLoop /\ done (session w') = ChanOpen /\
    n_open w' = S (n_open w) /\ sleeps w' = S (sleeps w) /\
    n_ping w' = n_ping w /\ monitors w' = monitors w /\
    closers w' = closers w /\ getters w' = getters w.
Proof.
  intros Hp Hs Hd Ho. eexists. split.
  - unfold sup_fails. sup_moves. sup_moves. sup_moves. reflexivity.
  - simpl. repeat split; assumption.
Qed.

Lemma failed_attempts (A : Adapter) (n : nat) (w : World) :
  panicked w = false -> sup w = SupLoop -> done (session w) = ChanOpen ->
  (forall k, k < n -> open_ok A (n_open w + k) = false) ->
  exists w',
    run A (cycles n sup_fails) w = Some w' /\
    panicked w' = false /\ sup w' = SupLoop /\ done (session w') = ChanOpen /\
    n_open w' = n_open w + n /\ sleeps w' = sleeps w + n /\
    n_ping w' = n_ping w /\ monitors w' = monitors w /\
    closers w' = closers w /\ getters w' = getters w.
Proof.
  revert w; induction n as [|n IH]; intros w Hp Hs Hd Hf.
  - exists w. simpl. rewrite !Nat.add_0_r. repeat split; auto.
  - assert (open_ok A (n_open w) = false) as Ho.
    { rewrite <- (Nat.add_0_r (n_open w)). apply Hf. lia. }
    destruct (failed_attempt A w Hp Hs Hd Ho)
      as (w1 & Hr1 & Hp1 & Hs1 & Hd1 & Hn1 & Hz1 & Hg1 & Hm1 & Hc1 & Hl1).
    destruct (IH w1 Hp1 Hs1 Hd1) as (w' & Hr & H').
    { intros k Hk. rewrite Hn1.
      replace (S (n_open w) + k) with (n_open w + S k) by lia. apply Hf. lia. }
    exists w'. split.
    + change (cycles (S n) sup_fails) with (sup_fails ++ cycles n sup_fails).
      rewrite run_app, Hr1. exact Hr.
    + destruct H' as (?&?&?&?&?&?&?&?&?).
      repeat split; auto; try congruence; lia.
Qed.


(** ** Close, run without interruption *)

(** On a session that is not ready Close returns errAlreadyClosed; on a
    ready session whose pool is installed and whose channels are open it
    returns nil and leaves the session not ready, so that Close after it
    returns errAlreadyClosed; and every reachable ready session that no
    earlier Close call has found ready has its pool installed and its
    channels open. *)
Lemma Close_on_open_channels :
  (forall w, isReady (session w) = false ->
     exists w', Close w = Ok (Some errAlreadyClosed) w' /\
       isReady (session w') = false) /\
  (forall w h, isReady (session w) = true -> pool (session w) = Some h ->
     done (session w) = ChanOpen -> notifyConnClose (session w) = ChanOpen ->
     exists w1 w2, Close w = Ok None w1 /\
       isReady (session w1) = false /\
       done (session w1) = ChanClosed /\
       Close w1 = Ok (Some errAlreadyClosed) w2) /\
  (forall A p w, reachable A p w -> quiet w = true -> isReady (session w) = true ->
     exists h, pool (session w) = Some h /\
       done (session w) = ChanOpen /\ notifyConnClose (session w) = ChanOpen).
Proof.
  repeat split.
  - intros w Hr. unfold_program. simpl. rewrite Hr. simpl.
    eexists. split; [reflexivity | exact Hr].
  - intros w h Hr Hp Hd Hn. unfold_program. simpl.
    rewrite Hr; simpl; rewrite Hp; simpl; rewrite Hd; simpl; rewrite Hn; simpl.
    do 2 eexists. repeat split.
  - intros A p w R Q Hr.
    pose proof (reachable_calm _ _ _ R Q) as HC.
    destruct (safe_ready _ (reachable_safe _ _ _ R) Hr) as [_ Hp].
    destruct (pool (session w)) as [h|]; [|congruence].
    exists h. repeat split; [exact (calm_done _ HC)|exact (calm_notify _ HC)].
Qed.

(** ** Shutdown and the monitor *)

(** Close does not stop the monitor.  When its next ping fails after a Close
    that found the session ready, it sends on the closed channel and the
    process panics. *)
Lemma monitor_panics_after_Close :
  exists w,
    run adapter_flaky (sup_connects ++ close_call 0 ++ [EMon 0; EMon 0]) world0 = Some w /\
    closers w = [CloseRet None] /\ panicked w = true.
Proof. eexists. vm_compute. repeat split. Qed.

(** ** The configured bound *)

Lemma step_with_max (A : Adapter) (m : Z) (e : event) (w : World) :
  step A e (world_with_max m w) = option_map (world_with_max m) (step A e w).
Proof.
  unfold world_with_max. destruct e; unfold_program; simpl;
    repeat match goal with
           | |- context [match ?x with _ => _ end] =>
               lazymatch x with
               | context [match _ with _ => _ end] => fail
               | _ => idtac
               end;
               destruct x eqn:?; simpl
           end; try reflexivity; try congruence.
Qed.

Lemma run_with_max (A : Adapter) (m : Z) (evs : list event) (w : World) :
  run A evs (world_with_max m w) = option_map (world_with_max m) (run A evs w).
Proof.
  revert w; induction evs as [|e t IH]; intros w; simpl; [reflexivity|].
  rewrite step_with_max. destruct (step A e w); simpl; auto.
Qed.

Lemma NewDB_with_max (A : Adapter) (m : Z) (params : option DB_Params) :
  NewDB A (option_map (with_max m) params)
  = option_map (world_with_max m) (NewDB A params).
Proof.
  destruct params as [p|]; [|reflexivity].
  unfold NewDB. simpl. destruct (config_ok A (Server p)); reflexivity.
Qed.

(** ** Before the first successful open *)





(** ** The claims *)

(** C1, as the specification states it, fails: with an adapter whose second
    ping fails, after the first connect has succeeded and the monitor's ping
    has failed, [isReady] is still true although a health check has failed
    since the last successful connect. *)
Lemma C1_flag_outlives_failed_probe :
  run adapter_flaky (sup_connects ++ [EMon 0]) world0 = Some world_probe_failed /\
  isReady (session world_probe_failed) = true /\
  probe_failed world_probe_failed = true /\
  ~ healthy world_probe_failed /\
  ~ readiness_is_health.
Proof.
  split; [vm_compute; reflexivity|]. split; [reflexivity|]. split; [reflexivity|].
  assert (~ healthy world_probe_failed) as N.
  { intros [_ [_ F]]. discriminate F. }
  split; [exact N|].
  intros H. apply N.
  exact (proj1 (H _ _ _ reachable_world_probe_failed) eq_refl).
Qed.

(** C1, amended.  [isReady] is true exactly from line 112 of a connect
    whose open and initial ping passed until the next execution of line 62
    by the supervisor or of line 162 by a Close call: in every reachable
    state a true flag means that the open and the initial ping of the latest
    attempt passed and a handle is installed, and the flag is false while
    the supervisor is between line 62 and line 112; the only step that sets
    the flag is line 112, and the only steps that clear it are line 62 and
    line 162, each of which does.  As long as no Close call has found the
    session ready, the flag is true if and only if the latest attempt passed
    its open and initial ping, line 112 has run, and the supervisor has not
    run line 62 since; the installed handle is then not closed; if a health
    check has failed while the flag is true, the monitor is still sending
    its notification or the supervisor has received it and is about to run
    line 62; and a Close call that runs to its end returns nil, closes the
    installed pool and leaves the flag false. *)
Theorem C1_readiness_window (A : Adapter) (p : DB_Params) (w : World) :
  reachable A p w ->
  (isReady (session w) = true -> connected w = true /\ pool (session w) <> None) /\
  (sup_before_ready (sup w) = true -> isReady (session w) = false) /\
  (forall e w', step A e w = Some w' ->
     (isReady (session w) = false -> isReady (session w') = true ->
        e = ESup /\ sup w = SupReady /\ connected w = true) /\
     (isReady (session w) = true -> isReady (session w') = false ->
        (e = ESup /\ sup w = SupLoop) \/
        (exists i, e = EClose i /\ nth_error (closers w) i = Some CloseClear))) /\
  (panicked w = false ->
     (sup w = SupReady ->
        exists w', step A ESup w = Some w' /\ isReady (session w') = true) /\
     (sup w = SupLoop ->
        exists w', step A ESup w = Some w' /\ isReady (session w') = false) /\
     (forall i, nth_error (closers w) i = Some CloseClear ->
        exists w', step A (EClose i) w = Some w' /\ isReady (session w') = false /\
          nth_error (closers w') i = Some (CloseRet None))) /\
  (quiet w = true ->
     (isReady (session w) = true <->
        connected w = true /\ (sup w = SupLogs \/ sup w = SupWait \/ sup w = SupLoop)) /\
     (isReady (session w) = true -> live_pool w) /\
     (isReady (session w) = true -> probe_failed w = true ->
        sup w = SupLoop \/
        exists i m, nth_error (monitors w) i = Some m /\ mon_at m = MonSend) /\
     (isReady (session w) = true ->
        exists w', run A (close_call (length (closers w))) w = Some w' /\
          closers w' = closers w ++ [CloseRet None] /\
          isReady (session w') = false /\ ~ live_pool w')).
Proof.
  intros R. pose proof (reachable_safe _ _ _ R) as HS.
  split; [exact (safe_ready _ HS)|]. split; [exact (safe_clear _ HS)|].
  split; [|split].
  - intros e w' H. pose proof (safe_conn _ HS) as Hc. split.
    + intros H0 H1. step_cases H; try congruence.
      repeat split. auto.
    + intros H0 H1. step_cases H; try congruence.
      * left. split; reflexivity.
      * right. eexists. split; [reflexivity|eassumption].
  - intros Hp. split; [|split].
    + intros Hs. unfold step. rewrite Hp, Hs. eexists. split; reflexivity.
    + intros Hs. unfold step. rewrite Hp, Hs. eexists. split; reflexivity.
    + intros i Hi. unfold step. rewrite Hp, Hi. eexists. split; [reflexivity|].
      split; [reflexivity|]. simpl. eapply nth_error_list_set_eq; eassumption.
  - intros Q. pose proof (reachable_calm _ _ _ R Q) as HC.
    assert (isReady (session w) = true ->
            sup w = SupLogs \/ sup w = SupWait \/ sup w = SupLoop) as Hpc.
    { intros Hr. pose proof (safe_clear _ HS) as Hb. pose proof (safe_exit _ HS) as He.
      pose proof (calm_done _ HC) as Hd.
      destruct (sup w); simpl in Hb; auto; try (specialize (Hb eq_refl); congruence).
      specialize (He eq_refl). congruence. }
    assert (isReady (session w) = true ->
            exists h, pool (session w) = Some h) as Hh.
    { intros Hr. destruct (safe_ready _ HS Hr) as [_ Hq].
      destruct (pool (session w)) as [h|]; [eauto|congruence]. }
    split; [|split; [|split]].
    + split.
      * intros Hr. split; [exact (proj1 (safe_ready _ HS Hr))|exact (Hpc Hr)].
      * intros [Hc [E|[E|E]]].
        -- apply (calm_wait _ HC). now rewrite E.
        -- apply (calm_wait _ HC). now rewrite E.
        -- now rewrite (calm_loop _ HC E).
    + intros Hr. destruct (Hh Hr) as [h E].
      exists h. split; [exact E|]. rewrite (calm_pools _ HC). intros [].
    + intros Hr Hf. destruct (Hpc Hr) as [E|[E|E]]; [| |now left]; right.
      all: pose proof (calm_count _ HC) as Hn; rewrite E in Hn; simpl in Hn.
      all: destruct (filter_exists active (monitors w)) as (i & m & Hm & Ha);
        [unfold active_monitors in Hn; lia|].
      all: exists i, m; split; [exact Hm|].
      all: unfold active in Ha.
      all: destruct (mon_at m) eqn:Em; [|reflexivity|discriminate Ha].
      all: pose proof (calm_tick _ HC _ _ Hm Em); congruence.
    + intros Hr. destruct (Hh Hr) as [h E].
      pose proof (calm_panic _ HC) as Hp.
      pose proof (calm_done _ HC) as Hd.
      pose proof (calm_notify _ HC) as Hn.
      pose proof (calm_pools _ HC) as Hc.
      eexists. split.
      * unfold close_call.
        eapply run_step_eq; [unfold step; rewrite Hp; reflexivity|].
        closer_moves CloseCall. closer_moves ClosePool.
        closer_moves (CloseLoaded (Some h)). closer_moves CloseDone.
        closer_moves CloseNotify. closer_moves CloseClear.
        reflexivity.
      * simpl. split; [reflexivity|]. split; [reflexivity|].
        intros [k [Hk Hin]]. simpl in Hk, Hin. apply Hin. left. congruence.
Qed.

Lemma C1_readiness_window_witness :
  reachable adapter_up params0 world_ready /\
  exists w', run adapter_up (close_call 0) world_ready = Some w' /\
    closers w' = [CloseRet None] /\
    isReady (session w') = false /\ ~ live_pool w'.
Proof.
  split; [exact reachable_world_ready|].
  destruct (C1_readiness_window adapter_up params0 world_ready reachable_world_ready)
    as [_ [_ [_ [_ H]]]].
  destruct (H eq_refl) as [_ [_ [_ H4]]].
  exact (H4 eq_refl).
Defined.

(** C2: the code breaks the claim.  The supervisor has connected and is about
    to evaluate the select of line 78; a Close call runs to its end and
    returns nil; the select then finds both channels closed, takes the
    notifyConnClose case, and the loop opens pool 1 after the shutdown. *)
Lemma C2_pool_opened_after_Close :
  run adapter_up (sup_connects ++ close_call 0) world0 = Some world_closed /\
  closers world_closed = [CloseRet None] /\
  done (session world_closed) = ChanClosed /\
  n_open world_closed = 1 /\
  run adapter_up [ESupRecv None; ESup; ESup] world_closed = Some world_reopened /\
  sup world_reopened = SupPing /\
  n_open world_reopened = 2 /\
  pool (session world_reopened) = Some 1 /\
  closed_pools world_reopened = [0].
Proof. vm_compute. repeat split. Qed.

(** C3: the code breaks the claim.  After the same race the supervisor
    finishes its second connect and sets [isReady] again; a GetConnection
    call made after Close has returned nil then gets a connection of pool 1
    instead of errShutdown. *)
Lemma C3_connection_after_Close :
  exists w,
    run adapter_up (race_schedule ++ [ESup; ESup; ESup]) world0 = Some world_two_monitors /\
    closers world_two_monitors = [CloseRet None] /\
    getters world_two_monitors = [] /\
    run adapter_up [ECallGet; EGet 0; EGet 0] world_two_monitors = Some w /\
    getters w = [mkGet (GetRet (inl (mkConn 1 0))) 0].
Proof. eexists. vm_compute. repeat split. Qed.

(** C4: the retry loop is unbounded.  Replacing MaxConnectAttempts by any
    other value changes no step of any goroutine; the supervisor has returned
    only if [done] is closed; while [done] is open a failed open and a failed
    initial ping lead to the backoff select, and from there one delay leads
    to the next attempt; and for every [n], [n] failed opens leave the
    supervisor at the top of its loop after [n] attempts and [n] delays. *)
Theorem C4_retry_is_unbounded :
  (forall A m params,
     NewDB A (option_map (with_max m) params)
     = option_map (world_with_max m) (NewDB A params) /\
     forall evs w,
       run A evs (world_with_max m w) = option_map (world_with_max m) (run A evs w)) /\
  (forall A p w, reachable A p w -> sup w = SupExit -> done (session w) = ChanClosed) /\
  (forall A p w, reachable A p w -> done (session w) = ChanOpen ->
     (sup w = SupConnect -> open_ok A (n_open w) = false ->
      exists w', step A ESup w = Some w' /\ sup w' = SupBackoff /\
        done (session w') = ChanOpen) /\
     (sup w = SupPing -> ping_ok A (n_ping w) = false ->
      exists w', step A ESup w = Some w' /\ sup w' = SupBackoff /\
        done (session w') = ChanOpen) /\
     (sup w = SupBackoff ->
      exists w', run A [ESup; ESup; ESup] w = Some w' /\
        sleeps w' = S (sleeps w) /\ n_open w' = S (n_open w) /\
        (sup w' = SupPing \/ sup w' = SupBackoff))) /\
  (forall A p w0 n,
     NewDB A (Some p) = Some w0 -> (forall k, k < n -> open_ok A k = false) ->
     exists w, run A (cycles n sup_fails) w0 = Some w /\
       n_open w = n /\ sleeps w = n /\ sup w = SupLoop /\ panicked w = false).
Proof.
  split; [|split; [|split]].
  - intros A m p. split; [apply NewDB_with_max|]. intros evs w. apply run_with_max.
  - intros A p w R. exact (safe_exit _ (reachable_safe _ _ _ R)).
  - intros A p w R Hd.
    pose proof (open_is_unpanicked _ _ _ R Hd) as Hp.
    pose proof (reachable_safe _ _ _ R) as HS.
    split; [|split].
    + intros Hs Ho. unfold step. rewrite Hp, Hs. unfold_program. simpl.
      rewrite Ho. simpl. eexists. repeat split. exact Hd.
    + intros Hs Hg. pose proof (safe_pool _ HS) as Hq. rewrite Hs in Hq.
      unfold step. rewrite Hp, Hs. unfold_program. simpl.
      destruct (pool (session w)); [|now elim (Hq eq_refl)].
      rewrite Hg. simpl. eexists. repeat split. exact Hd.
    + intros Hs. destruct (open_ok A (n_open w)) eqn:Ho.
      * eexists. split; [sup_moves; sup_moves; sup_moves; reflexivity|].
        simpl. repeat split. now left.
      * eexists. split; [sup_moves; sup_moves; sup_moves; reflexivity|].
        simpl. repeat split. now right.
  - intros A p w0 n H0 Hf.
    destruct (NewDB_fresh _ _ _ H0) as (Hp0 & Hs0 & Hd0 & Hn0 & Hz0 & _).
    destruct (failed_attempts A n w0 Hp0 Hs0 Hd0)
      as (w & Hr & Hp & Hs & _ & Hn & Hz & _).
    { intros k Hk. rewrite Hn0. apply Hf. exact Hk. }
    exists w. repeat split; auto; lia.
Qed.

Lemma C4_retry_is_unbounded_witness :
  exists w, run adapter_down (cycles 5 sup_fails) world0 = Some w /\
    n_open w = 5 /\ sleeps w = 5 /\ sup w = SupLoop /\ panicked w = false.
Proof.
  destruct C4_retry_is_unbounded as [_ [_ [_ H]]].
  apply (H adapter_down params0 world0 5); [reflexivity|].
  intros k _. reflexivity.
Defined.

(** C5: the code breaks the claim.  After the race of C2 the supervisor
    connects again although the monitor of pool 0 was never stopped and has
    sent nothing: once line 99 has run for pool 1, the monitor started on
    handle 0 and the one started on handle 1 are both active while pool 1
    is installed and live. *)
Lemma C5_two_monitors_after_Close :
  run adapter_up (race_schedule ++ [ESup; ESup; ESup]) world0 = Some world_two_monitors /\
  closers world_two_monitors = [CloseRet None] /\
  pool (session world_two_monitors) = Some 1 /\
  live_pool world_two_monitors /\
  monitors world_two_monitors = [mkMon MonTick (Some 0); mkMon MonTick (Some 1)] /\
  active_monitors world_two_monitors = 2 /\
  ~ one_monitor_per_handle.
Proof.
  assert (live_pool world_two_monitors) as L.
  { exists 1. split; [reflexivity|]. simpl. intros [F|[]]. discriminate F. }
  split; [vm_compute; reflexivity|]. split; [reflexivity|]. split; [reflexivity|].
  split; [exact L|]. split; [reflexivity|]. split; [reflexivity|].
  intros H.
  pose proof (H _ _ _ reachable_world_two_monitors L) as F.
  vm_compute in F. lia.
Qed.

(** C6: a finished GetConnection call holds a connection, or errShutdown with
    [done] closed, and nothing else; a call that finds the session not ready
    or whose Acquire fails goes to the select of line 132, and with [done]
    open that select waits out one delay and tries again. *)
Theorem C6_GetConnection_absorbs_errors :
  (forall A p w i g r,
     reachable A p w -> nth_error (getters w) i = Some g -> get_at g = GetRet r ->
     (exists c, r = inl c) \/ (r = inr errShutdown /\ done (session w) = ChanClosed)) /\
  (forall A w i g,
     panicked w = false -> nth_error (getters w) i = Some g ->
     (get_at g = GetCall -> isReady (session w) = false ->
      exists w', step A (EGet i) w = Some w' /\
        nth_error (getters w') i = Some (mkGet GetSelect (get_waits g))) /\
     (get_at g = GetAcquire -> pool (session w) <> None ->
      acquire_ok A (n_acquire w) = false ->
      exists w', step A (EGet i) w = Some w' /\
        nth_error (getters w') i = Some (mkGet GetSelect (get_waits g))) /\
     (get_at g = GetSelect -> done (session w) = ChanOpen ->
      exists w', step A (EGet i) w = Some w' /\
        nth_error (getters w') i = Some (mkGet GetCall (S (get_waits g))))).
Proof.
  split.
  - intros A p w i g r R Hg Hr.
    exact (safe_ret _ (reachable_safe _ _ _ R) _ _ _ Hg Hr).
  - intros A w i g Hp Hg. unfold step. rewrite Hp, Hg.
    unfold GetConnection_step.
    repeat split.
    + intros -> Hr. unfold_program. simpl. rewrite Hr. simpl.
      eexists. split; [reflexivity|]. simpl.
      eapply nth_error_list_set_eq; eassumption.
    + intros -> Hn Ha. unfold_program. simpl.
      destruct (pool (session w)); [|congruence]. rewrite Ha. simpl.
      eexists. split; [reflexivity|]. simpl.
      eapply nth_error_list_set_eq; eassumption.
    + intros -> Hd. unfold_program. simpl. rewrite Hd. simpl.
      eexists. split; [reflexivity|]. simpl.
      eapply nth_error_list_set_eq; eassumption.
Qed.

Lemma C6_GetConnection_absorbs_errors_witness :
  exists w',
    step adapter_up (EGet 0) world_waiting = Some w' /\
    nth_error (getters w') 0 = Some (mkGet GetCall 1).
Proof.
  destruct C6_GetConnection_absorbs_errors as [_ H].
  destruct (H adapter_up world_waiting 0 (mkGet GetSelect 0) eq_refl eq_refl)
    as [_ [_ H3]].
  exact (H3 eq_refl eq_refl).
Defined.



(** C8: the code breaks the claim.  After the race of C2 the session is
    ready again although a Close call has returned nil and both channels
    are closed.  A second Close call then finds [isReady] true, closes
    pool 1 and closes [done] a second time: it panics, where the claim has
    it return errAlreadyClosed (the session has stopped) or nil (the
    session is ready). *)
Lemma C8_second_Close_panics :
  run adapter_up (race_schedule ++ [ESup; ESup; ESup]) world0 = Some world_two_monitors /\
  closers world_two_monitors = [CloseRet None] /\
  isReady (session world_two_monitors) = true /\
  done (session world_two_monitors) = ChanClosed /\
  (exists w, Close world_two_monitors = Panicked w /\ closed_pools w = [1; 0]) /\
  (exists w,
     run adapter_up [ECallClose; EClose 1; EClose 1; EClose 1; EClose 1]
       world_two_monitors = Some w /\
     closers w = [CloseRet None; CloseDone] /\
     closed_pools w = [1; 0] /\ panicked w = true).
Proof.
  split; [vm_compute; reflexivity|]. do 3 (split; [reflexivity|]).
  split; eexists; vm_compute; repeat split.
Qed.

(** C9: Close on a session that is not ready returns errAlreadyClosed and
    changes nothing but the log, as a function and as a goroutine step.  So
    as long as every Close call so far has found the session not ready,
    both channels are open, no pool has been closed, the supervisor has not
    returned and retries after its backoff, no GetConnection call has
    returned an error, and a call waiting at line 132 goes round again. *)
Theorem C9_Close_on_unready_session :
  (forall w, isReady (session w) = false ->
     Close w = Ok (Some errAlreadyClosed)
                 (set_stdout (Println "Stopping DB" :: stdout w) w)) /\
  (forall A w i, panicked w = false -> isReady (session w) = false ->
     nth_error (closers w) i = Some CloseCall ->
     step A (EClose i) w
     = Some (set_closers (list_set i (CloseRet (Some errAlreadyClosed)) (closers w))
               (set_stdout (Println "Stopping DB" :: stdout w) w))) /\
  (forall A p w, reachable A p w -> quiet w = true ->
     done (session w) = ChanOpen /\
     notifyConnClose (session w) = ChanOpen /\
     closed_pools w = [] /\
     panicked w = false /\
     sup w <> SupExit /\
     (forall i g e, nth_error (getters w) i = Some g -> get_at g <> GetRet (inr e)) /\
     (sup w = SupBackoff ->
        step A ESup w = Some (set_sup SupLoop (set_sleeps (S (sleeps w)) w))) /\
     (forall i g, nth_error (getters w) i = Some g -> get_at g = GetSelect ->
        step A (EGet i) w
        = Some (set_getters (list_set i (mkGet GetCall (S (get_waits g))) (getters w)) w))).
Proof.
  split; [|split].
  - intros w Hr. unfold_program. simpl. rewrite Hr. reflexivity.
  - intros A w i Hp Hr Hc. unfold step. rewrite Hp, Hc.
    unfold_program. simpl. rewrite Hr. reflexivity.
  - intros A p w R Q.
    pose proof (reachable_safe _ _ _ R) as HS.
    pose proof (reachable_calm _ _ _ R Q) as HC.
    pose proof (calm_done _ HC) as Hd.
    pose proof (calm_panic _ HC) as Hp.
    repeat split; try apply HC; try exact Hd.
    + intros E. apply (safe_exit _ HS) in E. congruence.
    + intros i g e Hg Hr.
      destruct (safe_ret _ HS _ _ _ Hg Hr) as [[c F]|[_ F]]; congruence.
    + intros E. unfold step. rewrite Hp, E. unfold_program. simpl.
      rewrite Hd. reflexivity.
    + intros i g Hg Ha. unfold step. rewrite Hp, Hg.
      unfold_program. simpl. rewrite Ha. simpl. rewrite Hd. reflexivity.
Qed.

Lemma C9_Close_on_unready_session_witness :
  Close world0 = Ok (Some errAlreadyClosed)
                    (set_stdout (Println "Stopping DB" :: stdout world0) world0).
Proof.
  destruct C9_Close_on_unready_session as [H _].
  exact (H world0 eq_refl).
Defined.

(** C10: when the open succeeds and the initial ping fails, connect returns
    the ping's error with the new handle already stored in [session.pool];
    no pool is closed, [isReady] and the monitors are untouched.  In the
    supervisor the handle is stored by the step before the ping is made.
    The new handle differs from the one held before. *)
Theorem C10_failed_ping_leaves_new_pool (A : Adapter) (w : World) :
  open_ok A (n_open w) = true -> ping_ok A (n_ping w) = false ->
  (exists w',
     connect A w = Ok (Some (errAdapter OpPing (n_ping w))) w' /\
     pool (session w') = Some (n_open w) /\
     closed_pools w' = closed_pools w /\
     isReady (session w') = isReady (session w) /\
     monitors w' = monitors w) /\
  (panicked w = false -> sup w = SupConnect ->
   exists w1 w2,
     step A ESup w = Some w1 /\ sup w1 = SupPing /\
     pool (session w1) = Some (n_open w) /\ n_ping w1 = n_ping w /\
     step A ESup w1 = Some w2 /\ sup w2 = SupBackoff /\
     pool (session w2) = Some (n_open w) /\
     closed_pools w2 = closed_pools w) /\
  (forall p q, reachable A p w -> pool (session w) = Some q -> q <> n_open w).
Proof.
  intros Ho Hg. split; [|split].
  - unfold connect. unfold_program. simpl. rewrite Ho. simpl. rewrite Hg. simpl.
    eexists. repeat split.
  - intros Hp Hs. do 2 eexists.
    split.
    { unfold step. rewrite Hp, Hs. unfold_program. simpl. rewrite Ho. reflexivity. }
    do 3 (split; [reflexivity|]).
    split.
    { unfold step. simpl. rewrite Hp. unfold_program. simpl. rewrite Hg. reflexivity. }
    repeat split.
  - intros p q R Hq.
    pose proof (safe_fresh _ (reachable_safe _ _ _ R) _ Hq). lia.
Qed.

Lemma C10_failed_ping_leaves_new_pool_witness :
  exists w',
    connect adapter_sick world0 = Ok (Some (errAdapter OpPing 0)) w' /\
    pool (session w') = Some 0 /\
    closed_pools w' = [] /\
    isReady (session w') = false /\
    monitors w' = [].
Proof.
  exact (proj1 (C10_failed_ping_leaves_new_pool adapter_sick world0 eq_refl eq_refl)).
Defined.

(** ** The rest of the code: NewDB, the monitor, shutdown *)

(** X2: session.pool is never nil where a goroutine dereferences it: at the
    initial ping, in a monitor, at Acquire after the readiness check, and at
    pool.Close in Close, before and after the field is loaded.  So a panic can only come from a channel: the
    process has panicked only if [done] is closed, and never while every
    Close call has found the session not ready. *)
Theorem X2_pool_is_set_wherever_it_is_used (A : Adapter) (p : DB_Params) (w : World) :
  reachable A p w ->
  (sup w = SupPing -> pool (session w) <> None) /\
  (forall i m, nth_error (monitors w) i = Some m -> pool (session w) <> None) /\
  (forall i g, nth_error (getters w) i = Some g -> get_at g = GetAcquire ->
     pool (session w) <> None) /\
  (forall i, nth_error (closers w) i = Some ClosePool -> pool (session w) <> None) /\
  (forall i h, nth_error (closers w) i = Some (CloseLoaded h) -> h <> None) /\
  (panicked w = true -> done (session w) = ChanClosed) /\
  (quiet w = true -> panicked w = false).
Proof.
  intros R. pose proof (reachable_safe _ _ _ R) as HS.
  repeat split.
  - intros E. apply (safe_pool _ HS). now rewrite E.
  - exact (safe_mon _ HS).
  - exact (safe_get _ HS).
  - exact (safe_close _ HS).
  - exact (safe_load _ HS).
  - exact (safe_panic _ HS).
  - intros Q. exact (calm_panic _ (reachable_calm _ _ _ R Q)).
Qed.

Lemma X2_pool_is_set_wherever_it_is_used_witness :
  reachable adapter_up params0 world_ready /\
  (forall i m, nth_error (monitors world_ready) i = Some m ->
     pool (session world_ready) <> None).
Proof.
  split; [exact reachable_world_ready|].
  exact (proj1 (proj2 (X2_pool_is_set_wherever_it_is_used _ _ _ reachable_world_ready))).
Defined.

(** X8: who writes the session.  Monitors, GetConnection calls and the
    supervisor's selects (the backoff select of line 70 included), its go
    statement and its log lines never change a session field or close a pool;
    [isReady] becomes true only at line 112 of connect; session.pool
    changes only in the supervisor's open step; the channels change only in
    a Close call. *)
Theorem X8_who_writes_the_session (A : Adapter) (e : event) (w w' : World) :
  step A e w = Some w' ->
  (reads_only e = true -> session w' = session w /\ closed_pools w' = closed_pools w) /\
  (e = ESup -> sup w = SupBackoff \/ sup w = SupSpawn \/ sup w = SupLogs ->
     session w' = session w /\ closed_pools w' = closed_pools w) /\
  (isReady (session w) = false -> isReady (session w') = true ->
     e = ESup /\ sup w = SupReady) /\
  (pool (session w') <> pool (session w) -> e = ESup /\ sup w = SupConnect) /\
  (done (session w') <> done (session w) -> exists i, e = EClose i) /\
  (notifyConnClose (session w') <> notifyConnClose (session w) -> exists i, e = EClose i).
Proof.
  intros H. step_cases H.
  all: repeat split; intros; try discriminate; try congruence; eauto.
  all: repeat match goal with
       | F : _ \/ _ |- _ => destruct F
       end; congruence.
Qed.

Lemma X8_who_writes_the_session_witness :
  exists w', step adapter_up (EMon 0) world_ready = Some w' /\
    session w' = session world_ready /\ closed_pools w' = closed_pools world_ready.
Proof.
  eexists. split; [vm_compute; reflexivity|].
  refine (proj1 (X8_who_writes_the_session adapter_up (EMon 0) world_ready _ _) eq_refl).
  vm_compute. reflexivity.
Defined.

Lemma exit_step (A : Adapter) (e : event) (w w' : World) :
  step A e w = Some w' -> sup w = SupExit -> isReady (session w) = false ->
  sup w' = SupExit /\ isReady (session w') = false /\
  n_open w' = n_open w /\ pool (session w') = pool (session w).
Proof.
  intros H Hs Hr. step_cases H; repeat split; congruence.
Qed.

(** X10: once the supervisor has returned with the session not ready,
    whatever runs afterwards, it stays returned, the session stays not
    ready, and no pool is opened or installed; a GetConnection call made
    then returns errShutdown without waiting for the timer. *)
Theorem X10_after_the_supervisor_has_returned (A : Adapter) (p : DB_Params) (w : World) :
  reachable A p w -> sup w = SupExit -> isReady (session w) = false ->
  (forall evs w', run A evs w = Some w' ->
     sup w' = SupExit /\ isReady (session w') = false /\
     n_open w' = n_open w /\ pool (session w') = pool (session w)) /\
  (panicked w = false ->
   run A [ECallGet; EGet (length (getters w)); EGet (length (getters w))] w
   = Some (set_getters (getters w ++ [mkGet (GetRet (inr errShutdown)) 0])
             (set_stdout (Println "Push failed. Retrying..." :: stdout w) w))).
Proof.
  intros R Hs Hr. split.
  - intros evs. revert w R Hs Hr. induction evs as [|e t IH]; intros w R Hs Hr w' H.
    + injection H as <-. repeat split; assumption.
    + simpl in H. destruct (step A e w) as [w1|] eqn:E; [|discriminate].
      destruct (exit_step _ _ _ _ E Hs Hr) as (Hs1 & Hr1 & Hn1 & Hp1).
      destruct (IH w1 (reach_step e R E) Hs1 Hr1 w' H) as (? & ? & ? & ?).
      repeat split; congruence.
  - intros Hp.
    pose proof (safe_exit _ (reachable_safe _ _ _ R) Hs) as Hd.
    eapply run_step_eq; [unfold step; rewrite Hp; reflexivity|].
    eapply run_step_eq.
    { unfold step. simpl. rewrite Hp, nth_error_last.
      unfold_program. simpl. rewrite Hr. simpl. rewrite list_set_last. reflexivity. }
    eapply run_step_eq.
    { unfold step. simpl. rewrite Hp, nth_error_last.
      unfold_program. simpl. rewrite Hd. simpl. rewrite list_set_last. reflexivity. }
    reflexivity.
Qed.

Lemma reachable_world_stopped : reachable adapter_up params0 world_stopped.
Proof.
  apply (reachable_from_new _ _ (sup_connects ++ close_call 0 ++ [ESupDone]) world0);
    [|vm_compute]; reflexivity.
Qed.

Lemma X10_after_the_supervisor_has_returned_witness :
  run adapter_up [ECallGet; EGet 0; EGet 0] world_stopped
  = Some (set_getters ([] ++ [mkGet (GetRet (inr errShutdown)) 0])
            (set_stdout (Println "Push failed. Retrying..." :: stdout world_stopped)
               world_stopped)).
Proof.
  exact (proj2 (X10_after_the_supervisor_has_returned adapter_up params0 world_stopped
                  reachable_world_stopped eq_refl eq_refl) eq_refl).
Defined.

(** X9: the shutdown that works.  When the supervisor waits at line 78 and
    a Close call runs to its end before the supervisor is scheduled, and the
    select then takes the done case, Close returns nil, the installed pool
    is the one closed pool, both channels are closed, the session is not
    ready and the supervisor has returned; the monitor is still active. *)
Theorem X9_clean_shutdown (A : Adapter) (p : DB_Params) (w : World) :
  reachable A p w -> quiet w = true -> sup w = SupWait ->
  exists h w',
    pool (session w) = Some h /\
    run A (close_call (length (closers w)) ++ [ESupDone]) w = Some w' /\
    closers w' = closers w ++ [CloseRet None] /\
    sup w' = SupExit /\ isReady (session w') = false /\
    done (session w') = ChanClosed /\ notifyConnClose (session w') = ChanClosed /\
    closed_pools w' = [h] /\ panicked w' = false /\
    monitors w' = monitors w /\ active_monitors w' = 1.
Proof.
  intros R Q Hs.
  pose proof (reachable_safe _ _ _ R) as HS.
  pose proof (reachable_calm _ _ _ R Q) as HC.
  pose proof (calm_panic _ HC) as Hp.
  pose proof (calm_done _ HC) as Hd.
  pose proof (calm_notify _ HC) as Hn.
  pose proof (calm_pools _ HC) as Hc.
  assert (isReady (session w) = true) as Hr
    by (apply (calm_wait _ HC); rewrite Hs; reflexivity).
  pose proof (calm_count _ HC) as Hm. rewrite Hs in Hm. simpl in Hm.
  destruct (pool (session w)) as [h|] eqn:Hq.
  2:{ exfalso. apply (safe_pool _ HS); [rewrite Hs; reflexivity|exact Hq]. }
  exists h. eexists. split; [reflexivity|]. split.
  - unfold close_call. simpl app.
    eapply run_step_eq; [unfold step; rewrite Hp; reflexivity|].
    closer_moves CloseCall. closer_moves ClosePool.
    closer_moves (CloseLoaded (Some h)). closer_moves CloseDone.
    closer_moves CloseNotify. closer_moves CloseClear.
    eapply run_step_eq.
    { unfold step. simpl. rewrite Hp, Hs. unfold_program. simpl. reflexivity. }
    reflexivity.
  - simpl. repeat split; auto.
Qed.

Lemma reachable_world_reconnected : reachable adapter_flaky params0 world_reconnected.
Proof.
  apply (reachable_from_new _ _
           (sup_connects ++ [EMon 0; ESupRecv (Some 0)] ++ sup_connects) world0);
    [|vm_compute]; reflexivity.
Qed.

Lemma X9_clean_shutdown_witness :
  exists h w',
    pool (session world_ready) = Some h /\
    run adapter_up (close_call 0 ++ [ESupDone]) world_ready = Some w' /\
    closers w' = [CloseRet None] /\
    sup w' = SupExit /\ isReady (session w') = false /\
    done (session w') = ChanClosed /\ notifyConnClose (session w') = ChanClosed /\
    closed_pools w' = [h] /\ panicked w' = false /\
    monitors w' = monitors world_ready /\ active_monitors w' = 1.
Proof.
  exact (X9_clean_shutdown adapter_up params0 world_ready
           reachable_world_ready eq_refl eq_refl).
Defined.

Lemma replaced_step (A : Adapter) (p : DB_Params) (e : event) (w w' : World) (k : handle) :
  reachable A p w -> step A e w = Some w' ->
  (exists h, pool (session w) = Some h /\ k < h) -> ~ In k (closed_pools w) ->
  (forall i, nth_error (closers w) i <> Some (CloseLoaded (Some k))) ->
  (exists h, pool (session w') = Some h /\ k < h) /\ ~ In k (closed_pools w') /\
  (forall i, nth_error (closers w') i <> Some (CloseLoaded (Some k))).
Proof.
  intros R H [h [Hh Hk]] Hc Hl.
  pose proof (safe_fresh _ (reachable_safe _ _ _ R) _ Hh) as Hf.
  step_cases H.
  all: repeat match goal with
       | E : Some _ = Some _ |- _ => injection E as E; subst
       end.
  all: try discriminate.
  all: split; [eexists; split; [first [eassumption|reflexivity]|lia]|].
  all: split; [try assumption|].
  all: try assumption.
  all: try solve [intros j Hj; split_lookup; try discriminate; try congruence;
                  eapply Hl; eauto].
  - intros j Hj. rewrite Hh in Hj. split_lookup.
    + match goal with E : CloseLoaded _ = CloseLoaded _ |- _ => injection E as E end. lia.
    + eapply Hl; eauto.
  - intros [F|F]; [subst; eapply Hl; eauto|exact (Hc F)].
Qed.

(** X5: a pool that connect has replaced while it was open is closed
    afterwards only by a Close call that had loaded it from session.pool
    before it was replaced.  If no Close call holds the replaced handle,
    nothing that runs closes it: line 92 overwrites session.pool without
    closing the old handle, and line 159 closes the handle it loads.  A
    Close call that loaded handle 0 just before the supervisor replaced it
    closes pool 0 and leaves the installed pool 1 open. *)
Theorem X5_replaced_pool_is_closed_only_if_loaded (A : Adapter) (p : DB_Params)
    (w : World) (h k : handle) :
  reachable A p w -> pool (session w) = Some h -> k < h ->
  ~ In k (closed_pools w) ->
  (forall i, nth_error (closers w) i <> Some (CloseLoaded (Some k))) ->
  (forall evs w', run A evs w = Some w' -> ~ In k (closed_pools w')) /\
  (exists w1,
     run adapter_flaky
       (sup_connects ++ [EMon 0; ESupRecv (Some 0); ECallClose; EClose 0; EClose 0;
                         ESup; ESup; EClose 0]) world0 = Some w1 /\
     pool (session w1) = Some 1 /\ closed_pools w1 = [0] /\ panicked w1 = false).
Proof.
  intros R Hh Hk Hc Hl. split.
  - intros evs.
    assert (exists h, pool (session w) = Some h /\ k < h) as Hp by eauto.
    clear h Hh Hk. revert w R Hp Hc Hl.
    induction evs as [|e t IH]; intros w R Hp Hc Hl w' H.
    + injection H as <-. exact Hc.
    + simpl in H. destruct (step A e w) as [w1|] eqn:E; [|discriminate].
      destruct (replaced_step _ _ _ _ _ _ R E Hp Hc Hl) as [Hp1 [Hc1 Hl1]].
      exact (IH w1 (reach_step e R E) Hp1 Hc1 Hl1 w' H).
  - eexists. vm_compute. repeat split.
Qed.

Lemma X5_replaced_pool_is_closed_only_if_loaded_witness :
  exists w',
    run adapter_flaky (close_call 0 ++ [ESupDone]) world_reconnected = Some w' /\
    closed_pools w' = [1] /\ ~ In 0 (closed_pools w').
Proof.
  eexists. split; [vm_compute; reflexivity|]. split; [reflexivity|].
  refine (proj1 (X5_replaced_pool_is_closed_only_if_loaded adapter_flaky params0
                   world_reconnected 1 0 reachable_world_reconnected eq_refl _ _ _)
            (close_call 0 ++ [ESupDone]) _ _).
  - lia.
  - intros [].
  - intros [|i]; discriminate.
  - vm_compute. reflexivity.
Defined.


Ltac moves :=
  eapply run_step_eq;
  [ unfold step; unfold_program; simpl;
    repeat match goal with
           | E : _ = _ |- _ => rewrite E; simpl
           end;
    reflexivity
  | ].

Lemma quiet_same_closers (w w' : World) :
  closers w' = closers w -> quiet w = true -> quiet w' = true.
Proof. unfold quiet. now intros ->. Qed.

(** The hand-off of line 106 to line 81, once the supervisor is at line 78. *)
Lemma hand_off (A : Adapter) (w : World) (i : nat) (q : option handle) :
  panicked w = false -> sup w = SupWait ->
  notifyConnClose (session w) = ChanOpen ->
  nth_error (monitors w) i = Some (mkMon MonSend q) ->
  exists w',
    step A (ESupRecv (Some i)) w = Some w' /\
    sup w' = SupLoop /\ closers w' = closers w /\
    monitors w' = list_set i (mkMon MonExit q) (monitors w) /\
    panicked w' = false /\ session w' = session w /\
    closed_pools w' = closed_pools w /\
    n_open w' = n_open w /\ n_ping w' = n_ping w /\ sleeps w' = sleeps w.
Proof.
  intros Hp Hs Hn Hm. eexists. split.
  - unfold step. rewrite Hp, Hs. unfold_program. simpl. rewrite Hn. simpl.
    rewrite Hm. simpl. reflexivity.
  - simpl. repeat split. exact Hp.
Qed.

(** X6: the monitor and the supervisor before shutdown.  As long as no
    Close call has found the session ready: at most one monitor is active;
    it exists only between line 99 and the supervisor's receive at line 81,
    and it was started on the handle that is still installed; line 99
    starts one monitor on the installed handle, which is then the only
    active one; a monitor that sends at line 106 is not left waiting: the
    supervisor is between line 112 and line 78, reaches line 78 by at most
    two steps of its own, none of them a call of the pool library, and
    there receives from it, after which the monitor has left, none is
    active and the supervisor is at the top of its loop; and whatever the
    supervisor receives was sent by the monitor of the installed handle. *)
Theorem X6_no_notification_is_lost_before_shutdown (A : Adapter) (p : DB_Params)
    (w : World) :
  reachable A p w -> quiet w = true ->
  active_monitors w <= 1 /\
  (forall i m, nth_error (monitors w) i = Some m -> active m = true ->
     (sup w = SupReady \/ sup w = SupLogs \/ sup w = SupWait) /\
     mon_pool m = pool (session w)) /\
  (sup w = SupSpawn ->
     exists w', step A ESup w = Some w' /\
       monitors w' = monitors w ++ [mkMon MonTick (pool (session w))] /\
       active_monitors w' = 1) /\
  (forall i m, nth_error (monitors w) i = Some m -> mon_at m = MonSend ->
     exists n w', n <= 2 /\
       run A (repeat ESup n ++ [ESupRecv (Some i)]) w = Some w' /\
       sup w' = SupLoop /\
       nth_error (monitors w') i = Some (mkMon MonExit (mon_pool m)) /\
       active_monitors w' = 0) /\
  (forall i w', step A (ESupRecv (Some i)) w = Some w' ->
     exists m, nth_error (monitors w) i = Some m /\ mon_at m = MonSend /\
       mon_pool m = pool (session w) /\ active_monitors w' = 0).
Proof.
  intros R Q.
  pose proof (reachable_safe _ _ _ R) as HS.
  pose proof (reachable_calm _ _ _ R Q) as HC.
  pose proof (calm_count _ HC) as Hc.
  pose proof (calm_panic _ HC) as Hp.
  pose proof (calm_notify _ HC) as Hn.
  assert (forall i m, nth_error (monitors w) i = Some m -> active m = true ->
            sup w = SupReady \/ sup w = SupLogs \/ sup w = SupWait) as Hpc.
  { intros i m Hm Ha.
    destruct (calm_active_pool _ _ _ HS HC Hm Ha) as [E _].
    destruct (sup w); simpl in E; try discriminate E; auto. }
  split; [|split; [|split; [|split]]].
  - rewrite Hc. destruct (sup_monitored (sup w)); lia.
  - intros i m Hm Ha. split; [exact (Hpc _ _ Hm Ha)|exact (calm_mon _ HC _ _ Hm Ha)].
  - intros E. unfold step. rewrite Hp, E. simpl.
    eexists. split; [reflexivity|]. simpl. split; [reflexivity|].
    unfold active_monitors in *. simpl. rewrite filter_snoc, Hc, E. reflexivity.
  - intros i m Hm Ha.
    assert (active m = true) as Hact by (unfold active; rewrite Ha; reflexivity).
    destruct m as [pc q]. simpl in Ha. subst pc. simpl.
    assert (exists n w1, n <= 2 /\ run A (repeat ESup n) w = Some w1 /\
              panicked w1 = false /\ sup w1 = SupWait /\
              notifyConnClose (session w1) = ChanOpen /\
              monitors w1 = monitors w /\ closers w1 = closers w)
      as (n & w1 & Hle & R1 & Hp1 & Hs1 & Hn1 & Hm1 & Hc1).
    { destruct (Hpc _ _ Hm Hact) as [E|[E|E]].
      - exists 2. eexists. split; [lia|]. split; [simpl repeat; moves; moves; reflexivity|].
        simpl. repeat split; assumption.
      - exists 1. eexists. split; [lia|]. split; [simpl repeat; moves; reflexivity|].
        simpl. repeat split; assumption.
      - exists 0, w. split; [lia|]. repeat split; assumption. }
    destruct (hand_off A w1 i q Hp1 Hs1 Hn1) as (w' & S2 & Hs2 & Hc2 & Hm2 & _);
      [rewrite Hm1; exact Hm|].
    exists n, w'. split; [exact Hle|]. split.
    { rewrite run_app, R1. simpl. now rewrite S2. }
    split; [exact Hs2|].
    assert (reachable A p w') as R'.
    { apply (run_reachable A p (repeat ESup n ++ [ESupRecv (Some i)]) w); [exact R|].
      rewrite run_app, R1. simpl. now rewrite S2. }
    assert (calm w') as HC'.
    { apply (reachable_calm A p); [exact R'|].
      apply (quiet_same_closers w); [congruence|exact Q]. }
    split.
    + rewrite Hm2, Hm1. eapply nth_error_list_set_eq; eassumption.
    + pose proof (calm_count _ HC') as Hcnt. now rewrite Hs2 in Hcnt.
  - intros i w' H.
    assert (calm w') as HC'.
    { apply (calm_step _ _ _ _ HS HC H). revert H Q. clear.
      intros H Q. unfold quiet in *. step_cases H; auto. }
    pose proof (calm_count _ HC') as Hc'.
    step_cases H.
    eexists. split; [reflexivity|]. simpl. repeat split.
    + match goal with
      | Hn : nth_error (monitors w) i = Some _ |- _ =>
          exact (calm_mon _ HC _ _ Hn eq_refl)
      end.
    + exact Hc'.
Qed.

Lemma X6_no_notification_is_lost_before_shutdown_witness :
  exists n w', n <= 2 /\
    run adapter_flaky (repeat ESup n ++ [ESupRecv (Some 0)]) world_probe_failed = Some w' /\
    sup w' = SupLoop /\
    nth_error (monitors w') 0 = Some (mkMon MonExit (mon_pool (mkMon MonSend (Some 0)))) /\
    active_monitors w' = 0.
Proof.
  destruct (X6_no_notification_is_lost_before_shutdown adapter_flaky params0
              world_probe_failed reachable_world_probe_failed eq_refl)
    as [_ [_ [_ [H _]]]].
  exact (H 0 (mkMon MonSend (Some 0)) eq_refl eq_refl).
Defined.

Lemma list_set_twice {X : Type} (i : nat) (x y : X) (l : list X) :
  list_set i x (list_set i y l) = list_set i x l.
Proof.
  revert i; induction l as [|z t IH]; intros [|j]; simpl; auto. now rewrite IH.
Qed.

(** The supervisor, between line 99 and line 78, reaches line 78 by its own
    steps, which call nothing of the pool library. *)
Lemma sup_reaches_select (A : Adapter) (w : World) :
  panicked w = false -> sup_monitored (sup w) = true ->
  exists n w1, n <= 2 /\ run A (repeat ESup n) w = Some w1 /\
    panicked w1 = false /\ sup w1 = SupWait /\
    done (session w1) = done (session w) /\
    notifyConnClose (session w1) = notifyConnClose (session w) /\
    pool (session w1) = pool (session w) /\
    monitors w1 = monitors w /\ closers w1 = closers w /\ getters w1 = getters w /\
    closed_pools w1 = closed_pools w /\
    n_open w1 = n_open w /\ n_ping w1 = n_ping w /\ sleeps w1 = sleeps w.
Proof.
  intros Hp Hs. destruct (sup w) eqn:E; simpl in Hs; try discriminate Hs.
  - exists 2. eexists. split; [lia|]. split; [simpl repeat; moves; moves; reflexivity|].
    simpl. repeat split; assumption.
  - exists 1. eexists. split; [lia|]. split; [simpl repeat; moves; reflexivity|].
    simpl. repeat split; assumption.
  - exists 0, w. split; [lia|]. repeat split; assumption.
Qed.

(** One connect attempt that succeeds, the supervisor running alone. *)
Lemma successful_attempt (A : Adapter) (w : World) :
  panicked w = false -> sup w = SupLoop ->
  open_ok A (n_open w) = true -> ping_ok A (n_ping w) = true ->
  exists w',
    run A sup_connects w = Some w' /\
    panicked w' = false /\ sup w' = SupWait /\
    isReady (session w') = true /\ pool (session w') = Some (n_open w) /\
    done (session w') = done (session w) /\
    n_acquire w' = n_acquire w /\ sleeps w' = sleeps w /\
    getters w' = getters w /\ closers w' = closers w /\
    n_open w' = S (n_open w) /\ closed_pools w' = closed_pools w /\
    monitors w' = monitors w ++ [mkMon MonTick (Some (n_open w))].
Proof.
  intros Hp Hs Ho Hg. eexists. split.
  - unfold sup_connects. moves. moves. moves. moves. moves. moves. reflexivity.
  - simpl. repeat split; assumption.
Qed.

(** X7: after a failed health check the supervisor reconnects without any
    delay.  If the monitor's ping fails and the next open and ping succeed,
    then the monitor's step, the supervisor's steps up to line 78 (at most
    two), the hand-off and one connect attempt lead to a ready session on
    the new pool with no backoff timer waited out, the old monitor gone and
    one new monitor active; the old pool is not closed. *)
Theorem X7_reconnect_without_delay (A : Adapter) (p : DB_Params) (w : World)
    (i : nat) (m : monitor) :
  reachable A p w -> quiet w = true ->
  nth_error (monitors w) i = Some m -> mon_at m = MonTick ->
  ping_ok A (n_ping w) = false ->
  open_ok A (n_open w) = true -> ping_ok A (S (n_ping w)) = true ->
  exists n h w',
    n <= 2 /\
    pool (session w) = Some h /\
    run A ([EMon i] ++ repeat ESup n ++ [ESupRecv (Some i)] ++ sup_connects) w = Some w' /\
    sup w' = SupWait /\ isReady (session w') = true /\
    pool (session w') = Some (n_open w) /\ h <> n_open w /\
    n_open w' = S (n_open w) /\ sleeps w' = sleeps w /\
    closed_pools w' = [] /\ active_monitors w' = 1 /\
    nth_error (monitors w') i = Some (mkMon MonExit (mon_pool m)).
Proof.
  intros R Q Hm Ha Hg1 Ho Hg2.
  pose proof (reachable_safe _ _ _ R) as HS.
  pose proof (reachable_calm _ _ _ R Q) as HC.
  pose proof (calm_panic _ HC) as Hp.
  pose proof (calm_notify _ HC) as Hn.
  pose proof (calm_pools _ HC) as Hc.
  assert (active m = true) as Hact by (unfold active; rewrite Ha; reflexivity).
  destruct (calm_active_pool _ _ _ HS HC Hm Hact) as [Hs Hq].
  destruct (pool (session w)) as [h|] eqn:Hh; [|congruence].
  pose proof (safe_fresh _ HS _ Hh) as Hf.
  destruct m as [pc q]. simpl in Ha. subst pc. simpl.
  (* the monitor's ping fails *)
  assert (exists w0, step A (EMon i) w = Some w0 /\
            panicked w0 = false /\ sup w0 = sup w /\
            notifyConnClose (session w0) = ChanOpen /\
            monitors w0 = list_set i (mkMon MonSend q) (monitors w) /\
            closers w0 = closers w /\ closed_pools w0 = [] /\
            n_open w0 = n_open w /\ n_ping w0 = S (n_ping w) /\ sleeps w0 = sleeps w)
    as (w0 & S0 & Hp0 & Hs0 & Hn0 & Hm0 & Hc0 & Hk0 & Ho0 & Hg0 & Hz0).
  { eexists. split.
    - unfold step. rewrite Hp, Hm. unfold_program. simpl. rewrite Hh, Hg1. reflexivity.
    - simpl. repeat split; assumption. }
  (* the supervisor reaches line 78 *)
  destruct (sup_reaches_select A w0 Hp0) as
    (n & w1 & Hle & R1 & Hp1 & Hs1 & _ & Hn1 & _ & Hm1 & Hc1 & _ & Hk1 & Ho1 & Hg1' & Hz1);
    [rewrite Hs0; exact Hs|].
  (* the hand-off *)
  destruct (hand_off A w1 i q Hp1 Hs1)
    as (w2 & S2 & Hs2 & Hc2 & Hm2 & Hp2 & _ & Hk2 & Ho2 & Hg2' & Hz2);
    [congruence | rewrite Hm1, Hm0; eapply nth_error_list_set_eq; eassumption |].
  (* the next attempt *)
  destruct (successful_attempt A w2 Hp2 Hs2) as
    (w' & R3 & Hp3 & Hs3 & Hr3 & Hh3 & _ & _ & Hz3 & _ & Hc3 & Ho3 & Hk3 & Hm3);
    [congruence | congruence |].
  assert (run A ([EMon i] ++ repeat ESup n ++ [ESupRecv (Some i)] ++ sup_connects) w
          = Some w') as Hrun.
  { simpl app. simpl run. rewrite S0. rewrite run_app, R1. simpl app. simpl run.
    rewrite S2. exact R3. }
  exists n, h, w'. split; [exact Hle|]. split; [reflexivity|]. split; [exact Hrun|].
  split; [exact Hs3|]. split; [exact Hr3|].
  split; [congruence|]. split; [lia|]. split; [congruence|]. split; [congruence|].
  split; [congruence|]. split.
  - assert (calm w') as HC'.
    { apply (reachable_calm A p); [exact (run_reachable _ _ _ _ _ R Hrun)|].
      apply (quiet_same_closers w); [congruence|exact Q]. }
    pose proof (calm_count _ HC') as Hcnt. now rewrite Hs3 in Hcnt.
  - rewrite Hm3, Hm2, Hm1, Hm0, list_set_twice.
    rewrite nth_error_app1.
    + eapply nth_error_list_set_eq; eassumption.
    + rewrite list_set_length. apply nth_error_Some. congruence.
Qed.

Lemma reachable_flaky_world_ready : reachable adapter_flaky params0 world_ready.
Proof.
  apply (reachable_from_new _ _ sup_connects world0); [|vm_compute]; reflexivity.
Qed.

Lemma X7_reconnect_without_delay_witness :
  exists n h w',
    n <= 2 /\
    pool (session world_ready) = Some h /\
    run adapter_flaky
      ([EMon 0] ++ repeat ESup n ++ [ESupRecv (Some 0)] ++ sup_connects) world_ready
    = Some w' /\
    sup w' = SupWait /\ isReady (session w') = true /\
    pool (session w') = Some (n_open world_ready) /\ h <> n_open world_ready /\
    n_open w' = S (n_open world_ready) /\ sleeps w' = sleeps world_ready /\
    closed_pools w' = [] /\ active_monitors w' = 1 /\
    nth_error (monitors w') 0 = Some (mkMon MonExit (mon_pool (mkMon MonTick (Some 0)))).
Proof.
  exact (X7_reconnect_without_delay adapter_flaky params0 world_ready 0
           (mkMon MonTick (Some 0)) reachable_flaky_world_ready
           eq_refl eq_refl eq_refl eq_refl eq_refl eq_refl).
Defined.

(** X3: Close does not stop the monitor.  No step of a Close call touches
    the monitors, and once notifyConnClose is closed a monitor whose next
    ping fails sends on the closed channel: the process panics. *)
Theorem X3_monitor_survives_Close :
  (forall A j w w', step A (EClose j) w = Some w' -> monitors w' = monitors w) /\
  (forall A p w i m,
     reachable A p w -> panicked w = false ->
     notifyConnClose (session w) = ChanClosed ->
     nth_error (monitors w) i = Some m -> mon_at m = MonTick ->
     ping_ok A (n_ping w) = false ->
     exists w', run A [EMon i; EMon i] w = Some w' /\ panicked w' = true).
Proof.
  split.
  - intros A j w w' H. step_cases H; reflexivity.
  - intros A p w i m R Hp Hn Hm Ha Hg.
    pose proof (safe_mon _ (reachable_safe _ _ _ R) _ _ Hm) as Hq.
    destruct (pool (session w)) as [h|] eqn:Hh; [|congruence].
    eexists. split.
    + eapply run_step_eq.
      { unfold step. rewrite Hp, Hm. unfold_program. simpl. rewrite Ha. simpl.
        rewrite Hh, Hg. reflexivity. }
      eapply run_step_eq.
      { unfold step. simpl. rewrite Hp, (nth_error_list_set_eq _ _ _ _ Hm).
        unfold_program. simpl. rewrite Hn. reflexivity. }
      reflexivity.
    + reflexivity.
Qed.

Lemma reachable_world_closed_flaky : reachable adapter_flaky params0 world_closed_flaky.
Proof.
  apply (reachable_from_new _ _ (sup_connects ++ close_call 0) world0);
    [|vm_compute]; reflexivity.
Qed.

Lemma X3_monitor_survives_Close_witness :
  exists w', run adapter_flaky [EMon 0; EMon 0] world_closed_flaky = Some w' /\
    panicked w' = true.
Proof.
  exact (proj2 X3_monitor_survives_Close adapter_flaky params0 world_closed_flaky 0
           (mkMon MonTick (Some 0)) reachable_world_closed_flaky
           eq_refl eq_refl eq_refl eq_refl eq_refl).
Defined.

Lemma nth_error_app_here {X : Type} (l r : list X) (x : X) :
  nth_error (l ++ x :: r) (length l) = Some x.
Proof. rewrite nth_error_app2, Nat.sub_diag by lia. reflexivity. Qed.

Lemma nth_error_app_next {X : Type} (l r : list X) (x y : X) :
  nth_error (l ++ x :: y :: r) (S (length l)) = Some y.
Proof.
  rewrite nth_error_app2 by lia.
  replace (S (length l) - length l) with 1 by lia. reflexivity.
Qed.

Lemma list_set_app_here {X : Type} (l r : list X) (x z : X) :
  list_set (length l) z (l ++ x :: r) = l ++ z :: r.
Proof. induction l as [|a t IH]; simpl; [reflexivity|now rewrite IH]. Qed.

Lemma list_set_app_next {X : Type} (l r : list X) (x y z : X) :
  list_set (S (length l)) z (l ++ x :: y :: r) = l ++ x :: z :: r.
Proof. induction l as [|a t IH]; [reflexivity|]. simpl. f_equal. exact IH. Qed.

Section TwoCloseCalls.

#[local] Arguments list_set : simpl never.
#[local] Arguments nth_error : simpl never.

(** X4: two Close calls that both pass the readiness check of line 156
    before either has cleared the flag make the process panic: the second
    one closes [done] again. *)
Theorem X4_concurrent_Close_panics (A : Adapter) (p : DB_Params) (w : World) :
  reachable A p w -> quiet w = true -> isReady (session w) = true ->
  exists w',
    run A (two_close_calls (length (closers w))) w = Some w' /\
    closers w' = closers w ++ [CloseNotify; CloseDone] /\
    panicked w' = true.
Proof.
  intros R Q Hr.
  pose proof (reachable_safe _ _ _ R) as HS.
  pose proof (reachable_calm _ _ _ R Q) as HC.
  pose proof (calm_panic _ HC) as Hp.
  pose proof (calm_done _ HC) as Hd.
  destruct (safe_ready _ HS Hr) as [_ Hq].
  destruct (pool (session w)) as [h|] eqn:Hh; [|congruence].
  eexists. split.
  - unfold two_close_calls.
    eapply run_step_eq; [unfold step; rewrite Hp; reflexivity|].
    eapply run_step_eq; [unfold step; simpl; rewrite Hp; reflexivity|].
    eapply run_step_eq.
    { unfold step. simpl. rewrite <- app_assoc. simpl.
      rewrite Hp, nth_error_app_here. unfold_program. simpl.
      rewrite Hr. simpl. rewrite <- ?app_assoc. simpl.
      rewrite list_set_app_here. reflexivity. }
    eapply run_step_eq.
    { unfold step. simpl. rewrite Hp, nth_error_app_next. unfold_program. simpl.
      rewrite Hr. simpl. rewrite list_set_app_next. reflexivity. }
    eapply run_step_eq.
    { unfold step. simpl. rewrite Hp, nth_error_app_here. unfold_program. simpl.
      rewrite Hh. simpl. rewrite list_set_app_here. reflexivity. }
    eapply run_step_eq.
    { unfold step. simpl. rewrite Hp, nth_error_app_here. unfold_program. simpl.
      rewrite list_set_app_here. reflexivity. }
    eapply run_step_eq.
    { unfold step. simpl. rewrite Hp, nth_error_app_here. unfold_program. simpl.
      rewrite Hd. simpl. rewrite list_set_app_here. reflexivity. }
    eapply run_step_eq.
    { unfold step. simpl. rewrite Hp, nth_error_app_next. unfold_program. simpl.
      rewrite Hh. simpl. rewrite list_set_app_next. reflexivity. }
    eapply run_step_eq.
    { unfold step. simpl. rewrite Hp, nth_error_app_next. unfold_program. simpl.
      rewrite list_set_app_next. reflexivity. }
    eapply run_step_eq.
    { unfold step. simpl. rewrite Hp, nth_error_app_next. unfold_program. simpl.
      reflexivity. }
    reflexivity.
  - simpl. split; reflexivity.
Qed.

End TwoCloseCalls.

Lemma X4_concurrent_Close_panics_witness :
  exists w',
    run adapter_up (two_close_calls 0) world_ready = Some w' /\
    closers w' = [CloseNotify; CloseDone] /\
    panicked w' = true.
Proof.
  exact (X4_concurrent_Close_panics adapter_up params0 world_ready
           reachable_world_ready eq_refl eq_refl).
Defined.

(** A call that waits at line 132 returns once the session is ready. *)
Lemma waiting_call_returns (A : Adapter) (w : World) (i : nat) (g : getter) (h : handle) :
  panicked w = false -> done (session w) = ChanOpen ->
  isReady (session w) = true -> pool (session w) = Some h ->
  acquire_ok A (n_acquire w) = true ->
  nth_error (getters w) i = Some g -> get_at g = GetSelect ->
  exists w',
    run A [EGet i; EGet i; EGet i] w = Some w' /\
    getters w' = list_set i (mkGet (GetRet (inl (mkConn h (n_acquire w))))
                               (S (get_waits g))) (getters w) /\
    session w' = session w /\ sleeps w' = sleeps w.
Proof.
  intros Hp Hd Hr Hh Ha Hg Hs. eexists. split.
  - eapply run_step_eq.
    { unfold step. rewrite Hp, Hg. unfold_program. simpl. rewrite Hs. simpl.
      rewrite Hd. reflexivity. }
    eapply run_step_eq.
    { unfold step. simpl. rewrite Hp, (nth_error_list_set_eq _ _ _ _ Hg).
      unfold_program. simpl. rewrite Hr. reflexivity. }
    eapply run_step_eq.
    { unfold step. simpl. rewrite Hp.
      erewrite nth_error_list_set_eq by (eapply nth_error_list_set_eq; exact Hg).
      unfold_program. simpl. rewrite Hh, Ha. reflexivity. }
    reflexivity.
  - simpl. rewrite !list_set_twice. repeat split.
Qed.

Lemma early_call_returns (A : Adapter) (w : World) :
  panicked w = false -> sup w = SupLoop -> done (session w) = ChanOpen ->
  isReady (session w) = false ->
  getters w = [] -> n_open w = 0 -> n_ping w = 0 -> n_acquire w = 0 ->
  open_ok A 0 = true -> ping_ok A 0 = true -> acquire_ok A 0 = true ->
  exists w',
    run A early_call w = Some w' /\
    isReady (session w') = true /\ pool (session w') = Some 0 /\
    sleeps w' = sleeps w /\
    getters w' = [mkGet (GetRet (inl (mkConn 0 0))) 1].
Proof.
  intros Hp Hs Hd Hr Hl Hn Hi Hq Ho Hg Ha.
  assert (exists w1, run A [ECallGet; EGet 0] w = Some w1 /\
            panicked w1 = false /\ sup w1 = SupLoop /\ done (session w1) = ChanOpen /\
            n_open w1 = 0 /\ n_ping w1 = 0 /\ n_acquire w1 = 0 /\
            sleeps w1 = sleeps w /\ getters w1 = [mkGet GetSelect 0])
    as (w1 & R1 & Hp1 & Hs1 & Hd1 & Hn1 & Hi1 & Hq1 & Hz1 & Hl1).
  { eexists. split; [moves; moves; reflexivity|]. simpl. repeat split; assumption. }
  destruct (successful_attempt A w1 Hp1 Hs1) as
    (w2 & R2 & Hp2 & Hs2 & Hr2 & Hh2 & Hd2 & Hq2 & Hz2 & Hl2 & _);
    [rewrite Hn1; exact Ho | rewrite Hi1; exact Hg |].
  destruct (waiting_call_returns A w2 0 (mkGet GetSelect 0) (n_open w1) Hp2)
    as (w3 & R3 & Hl3 & Hs3 & Hz3); auto; try congruence.
  { rewrite Hl2, Hl1. reflexivity. }
  exists w3. split.
  - unfold early_call. rewrite run_app, R1, run_app, R2. exact R3.
  - rewrite Hs3, Hl3, Hz3, Hl2, Hl1, Hq2, Hq1, Hn1. simpl.
    repeat split; congruence.
Qed.

(** X1: NewDB and the first connection.  NewDB panics on a nil params
    pointer (line 46) and on a config string that ParseConfig rejects
    (line 48).  Otherwise the session it returns has no pool, is not ready,
    and only the supervisor has been started; a GetConnection call made
    before the first connect then waits at line 132, and once the
    supervisor has connected (first open, ping and Acquire succeeding) it
    returns a connection of pool 0 after one delay. *)
Theorem X1_NewDB_and_the_first_connection (A : Adapter) :
  NewDB A None = None /\
  (forall p, config_ok A (Server p) = false -> NewDB A (Some p) = None) /\
  (forall p, config_ok A (Server p) = true ->
   exists w0,
     NewDB A (Some p) = Some w0 /\ quiet w0 = true /\
     pool (session w0) = None /\ isReady (session w0) = false /\
     n_open w0 = 0 /\ sup w0 = SupLoop /\ monitors w0 = [] /\
     (open_ok A 0 = true -> ping_ok A 0 = true -> acquire_ok A 0 = true ->
      exists w,
        run A early_call w0 = Some w /\
        isReady (session w) = true /\ pool (session w) = Some 0 /\
        sleeps w = 0 /\
        getters w = [mkGet (GetRet (inl (mkConn 0 0))) 1])).
Proof.
  split; [reflexivity|]. split.
  - intros p H. unfold NewDB. now rewrite H.
  - intros p H.
    destruct (NewDB A (Some p)) as [w0|] eqn:E.
    2:{ unfold NewDB in E. rewrite H in E. discriminate E. }
    exists w0. split; [reflexivity|].
    assert (getters w0 = [] /\ n_acquire w0 = 0 /\ pool (session w0) = None /\
            isReady (session w0) = false /\ monitors w0 = [])
      as (Hl & Hq & Hn & Hr & Hm).
    { unfold NewDB in E. rewrite H in E. injection E as <-. repeat split. }
    destruct (NewDB_fresh _ _ _ E) as (Hp & Hs & Hd & Ho0 & Hz & Hi).
    split; [exact (quiet_new _ _ _ E)|].
    do 5 (split; [assumption|]).
    intros Ho Hg Ha.
    destruct (early_call_returns A w0 Hp Hs Hd Hr Hl Ho0 Hi Hq Ho Hg Ha)
      as (w & Hrun & H1 & H2 & H3 & H4).
    exists w. repeat split; try assumption. congruence.
Qed.

Lemma X1_NewDB_and_the_first_connection_witness :
  exists w0,
    NewDB adapter_up (Some params0) = Some w0 /\ quiet w0 = true /\
    pool (session w0) = None /\ isReady (session w0) = false /\
    n_open w0 = 0 /\ sup w0 = SupLoop /\ monitors w0 = [] /\
    (open_ok adapter_up 0 = true -> ping_ok adapter_up 0 = true ->
     acquire_ok adapter_up 0 = true ->
     exists w,
       run adapter_up early_call w0 = Some w /\
       isReady (session w) = true /\ pool (session w) = Some 0 /\
       sleeps w = 0 /\
       getters w = [mkGet (GetRet (inl (mkConn 0 0))) 1]).
Proof.
  exact (proj2 (proj2 (X1_NewDB_and_the_first_connection adapter_up)) params0 eq_refl).
Defined.

(** X11: on a ready session whose Acquire succeeds, a GetConnection call
    returns a connection of the installed pool without logging a failure or
    waiting, and a call that waits at line 132 returns it after one more
    delay; neither changes the session. *)
Theorem X11_GetConnection_on_a_ready_session (A : Adapter) (w : World) (h : handle) :
  panicked w = false -> isReady (session w) = true -> pool (session w) = Some h ->
  acquire_ok A (n_acquire w) = true ->
  (exists w',
     run A [ECallGet; EGet (length (getters w)); EGet (length (getters w))] w = Some w' /\
     getters w' = getters w ++ [mkGet (GetRet (inl (mkConn h (n_acquire w)))) 0] /\
     session w' = session w /\ stdout w' = stdout w) /\
  (forall i g, done (session w) = ChanOpen ->
     nth_error (getters w) i = Some g -> get_at g = GetSelect ->
     exists w',
       run A [EGet i; EGet i; EGet i] w = Some w' /\
       getters w' = list_set i (mkGet (GetRet (inl (mkConn h (n_acquire w))))
                                  (S (get_waits g))) (getters w) /\
       session w' = session w /\ sleeps w' = sleeps w).
Proof.
  intros Hp Hr Hh Ha. split.
  - eexists. split.
    + eapply run_step_eq; [unfold step; rewrite Hp; reflexivity|].
      eapply run_step_eq.
      { unfold step. simpl. rewrite Hp, nth_error_last.
        unfold_program. simpl. rewrite Hr. simpl. rewrite list_set_last. reflexivity. }
      eapply run_step_eq.
      { unfold step. simpl. rewrite Hp, nth_error_last.
        unfold_program. simpl. rewrite Hh, Ha. simpl. rewrite list_set_last.
        reflexivity. }
      reflexivity.
    + simpl. repeat split.
  - intros i g Hd Hg Hs.
    exact (waiting_call_returns A w i g h Hp Hd Hr Hh Ha Hg Hs).
Qed.

Lemma X11_GetConnection_on_a_ready_session_witness :
  exists w',
    run adapter_up [ECallGet; EGet 0; EGet 0] world_ready = Some w' /\
    getters w' = [] ++ [mkGet (GetRet (inl (mkConn 0 0))) 0] /\
    session w' = session world_ready /\ stdout w' = stdout world_ready.
Proof.
  exact (proj1 (X11_GetConnection_on_a_ready_session adapter_up world_ready 0
                  eq_refl eq_refl eq_refl eq_refl)).
Defined.
